(** * leveldb_blockchain: the block store facade of libbitcoin

    A shallow embedding of [src/blockchain/leveldb/leveldb_blockchain.cpp].
    The facade owns five LevelDB tables, hands every operation to one
    strand, and talks to four collaborators through pointers: the table
    helper [common_], the chain keeper [chain_], the orphan pool
    [orphans_] and the organizer [organize_].  Pointers may be null, so
    every member function is an action on the facade that either returns
    or faults. *)

From Stdlib Require Import ZArith List Lia String.
From stdpp Require Import gmap strings list fin_maps.

Open Scope Z_scope.

(** ** Plain data *)

(** [hash_digest] is [std::array<uint8_t, 32>], [short_hash] the 20-byte
    one, [data_chunk] a byte vector; a byte is a [Z] in [0, 256). *)
Abbreviation hash_digest := (list Z) (only parsing).
Abbreviation short_hash := (list Z) (only parsing).
Abbreviation data_chunk := (list Z) (only parsing).

Definition max_uint32 : Z := 4294967295.

(** The values of [error::] used by the facade; [success] is
    [std::error_code()]. *)
Inductive error_code :=
| success
| service_stopped
| operation_failed
| not_found
| duplicate
| unspent_output
| unsupported_payment_type.

Inductive block_status := orphan | confirmed | rejected.

Record block_info := { status : block_status; depth : Z }.

Record output_point := { op_hash : hash_digest; op_index : Z }.
Record input_point := { ip_hash : hash_digest; ip_index : Z }.

Inductive payment_type :=
| pubkey_hash
| script_hash
| other_payment_type.

Record payment_address :=
  { addr_type : payment_type; addr_version : Z; addr_hash : short_hash }.

Record transaction_input := { previous_output : output_point }.
Record transaction_output :=
  { value : Z; paid_to : option payment_address }.
Record transaction :=
  { tx_version : Z;
    inputs : list transaction_input;
    outputs : list transaction_output;
    locktime : Z }.

Record block_header :=
  { version : Z;
    previous_block_hash : hash_digest;
    merkle : hash_digest;
    timestamp : Z;
    bits : Z;
    nonce : Z }.

Record block := { header : block_header; transactions : list transaction }.

Inductive inventory_type := inv_error | inv_transaction | inv_block.
Record inventory_vector := { inv_type : inventory_type; inv_hash : hash_digest }.

#[global] Instance error_code_eq_dec : EqDecision error_code.
Proof. solve_decision. Defined.
#[global] Instance block_status_eq_dec : EqDecision block_status.
Proof. solve_decision. Defined.
#[global] Instance block_info_eq_dec : EqDecision block_info.
Proof. solve_decision. Defined.
#[global] Instance payment_type_eq_dec : EqDecision payment_type.
Proof. solve_decision. Defined.

(** The hash functions come from the bitcoin library; the facade only
    calls them.  A block is hashed by its header fields, which is what
    [hash_block_header(block)] reads.  A digest is always 32 bytes
    long. *)
Class Hashing := {
  hash_block_header : block_header -> hash_digest;
  hash_transaction : transaction -> hash_digest;
  hash_transaction_size : forall tx, length (hash_transaction tx) = 32%nat
}.

(** ** What is kept on disk *)

(** The protobuf messages of the tables; [None] stands for a message for
    which [IsInitialized()] is false. *)
Record proto_block :=
  { pb_header : block_header; pb_transactions : list (list Z) }.

Record proto_transaction :=
  { pt_tx : transaction; pt_parent_depth : Z; pt_parent_index : Z }.

(** The five tables of the storage directory. *)
Record tables := {
  blocks : gmap Z proto_block;
  blocks_hash : gmap (list Z) Z;
  txs : gmap (list Z) proto_transaction;
  spends : gmap (list Z * Z) input_point;
  address : gmap (list Z) (list Z)
}.

Definition empty_tables : tables :=
  {| blocks := ∅; blocks_hash := ∅; txs := ∅; spends := ∅; address := ∅ |}.

(** Result of [leveldb::DB::Get]. *)
Inductive get_status :=
| get_ok (v : list Z)
| get_not_found
| get_io_error.

(** ** Collaborators *)

(** [block_detail]: a block with the verdict the organizer leaves on it.
    Details live behind [shared_ptr]s, so the facade and the pool may
    hold the same one; they are kept in a heap and named by address. *)
Record block_detail :=
  { actual : block; info : block_info; errc : error_code }.

Definition new_block_detail (b : block) : block_detail :=
  {| actual := b; info := {| status := orphan; depth := 0 |}; errc := success |}.

Definition null_hash : hash_digest := repeat 0 32.

(** [message::block()] *)
Definition default_block : block :=
  {| header := {| version := 0; previous_block_hash := null_hash;
                  merkle := null_hash; timestamp := 0; bits := 0; nonce := 0 |};
     transactions := [] |}.

#[global] Instance block_detail_inhabited : Inhabited block_detail :=
  populate (new_block_detail default_block).

Record orphans_pool := { capacity : nat; pool : list positive }.

(** A handler registered with [subscribe_reorganize] is named by a
    number. *)
Definition subscriber := list nat.

(** What the facade's continuations and the outside world see. *)
Inductive event :=
| ev_touch_file (path : string)
| ev_try_lock (path : string) (ok : bool)
| ev_db_open (db_name : string) (ok : bool)
| ev_db_release (db_name : string)
| ev_db_get (db_name : string)
| ev_log (msg : string)
| ev_organize
| ev_txn_checkpoint
| ev_reorganize (handler : nat) (ec : error_code) (fork : Z)
    (arrivals replaced : list block)
| handle_start (ec : error_code)
| handle_store (ec : error_code) (i : block_info)
| handle_import (ec : error_code)
| handle_fetch_block_header (ec : error_code) (b : block)
| handle_fetch_block_transaction_hashes (ec : error_code)
    (l : list inventory_vector)
| handle_fetch_block_depth (ec : error_code) (d : Z)
| handle_fetch_last_depth (ec : error_code) (d : Z)
| handle_fetch_transaction (ec : error_code) (tx : transaction)
| handle_fetch_transaction_index (ec : error_code) (block_depth offset : Z)
| handle_fetch_spend (ec : error_code) (inpoint : input_point)
| handle_fetch_outputs (ec : error_code) (l : list output_point).

(** What one handler of the reorganize subscriber is called with. *)
Record notice := {
  n_handler : nat;
  n_ec : error_code;
  n_fork : Z;
  n_arrivals : list block;
  n_replaced : list block
}.

Definition fire (n : notice) : event :=
  ev_reorganize (n_handler n) (n_ec n) (n_fork n) (n_arrivals n) (n_replaced n).

(** The part of the store an organizer works on: it reaches the tables
    through the chain keeper, and holds the pool, the details in it and
    the subscriber. *)
Record organizer_view := {
  ov_tables : tables;
  ov_pool : orphans_pool;
  ov_details : gmap positive block_detail;
  ov_subscriber : subscriber
}.

(** The collaborators are abstract classes of the library; the facade
    only sees these member functions. *)
Record leveldb_common := {
  (* returns false when a write fails; the tables are then what the
     writes that went before left *)
  save_block : tables -> Z -> block -> bool * tables;
  fetch_proto_block : tables -> Z -> option proto_block;
  fetch_proto_block_by_hash : tables -> hash_digest -> option proto_block;
  fetch_proto_transaction : tables -> hash_digest -> option proto_transaction;
  (* the bool result and the out-parameter as one option *)
  fetch_spend : tables -> output_point -> option input_point;
  fetch_block_depth : tables -> hash_digest -> Z;
  find_last_block_depth : tables -> Z
}.

Record chain_keeper := { find_index : tables -> hash_digest -> Z }.

Record organizer :=
  { organizer_start : organizer_view -> organizer_view * list notice }.

(** ** The facade *)

Inductive operation :=
| op_start (prefix : string)
| op_store (b : block)
| op_import (b : block) (d : Z)
| op_fetch_block_header_by_depth (d : Z)
| op_fetch_block_header_by_hash (h : hash_digest)
| op_fetch_block_transaction_hashes_by_depth (d : Z)
| op_fetch_block_transaction_hashes_by_hash (h : hash_digest)
| op_fetch_block_depth (h : hash_digest)
| op_fetch_last_depth
| op_fetch_transaction (h : hash_digest)
| op_fetch_transaction_index (h : hash_digest)
| op_fetch_spend (o : output_point)
| op_fetch_outputs (a : payment_address).

Record leveldb_blockchain := {
  (* the storage directory and the strand *)
  disk : tables;
  strand : list operation;
  (* members *)
  flock_ : bool;
  db_blocks_l1 : bool;
  db_blocks_hash_l1 : bool;
  db_txs_l1 : bool;
  db_spends_l1 : bool;
  db_address_l1 : bool;
  common_ : option leveldb_common;
  chain_ : option chain_keeper;
  orphans_ : option orphans_pool;
  organize_ : option organizer;
  env_ : bool;
  reorganize_subscriber_ : subscriber;
  (* the static local of do_store: one counter for the process, which
     every facade of the process shares *)
  flush_counter : Z;
  (* the heap of block details *)
  details : gmap positive block_detail;
  next_detail : positive
}.

(** The lock file of the storage directory, as [initialize] finds it
    after the touch: it cannot be opened, or it can and another process
    holds the lock on it, or it can and the lock is free. *)
Inductive lock_file := lock_unopenable | lock_held | lock_free.

(** The state of the machine the store is started on. *)
Record host := {
  lock : lock_file;
  db_opens : string -> bool;
  (* I/O failure of a read of the address table *)
  address_read_fails : bool
}.

Definition lock_file_opens (h : host) : bool :=
  match lock h with lock_unopenable => false | _ => true end.

Definition lock_held_elsewhere (h : host) : bool :=
  match lock h with lock_held => true | _ => false end.

(** ** Actions *)

Inductive fault :=
| null_dereference
| interprocess_exception
| assertion_failure
| read_past_end
| out_of_fuel.

Inductive outcome (A : Type) :=
| Returns (a : A) (s : leveldb_blockchain) (tr : list event)
| Faults (f : fault) (tr : list event).
Arguments Returns {A} a s tr.
Arguments Faults {A} f tr.

Definition action (A : Type) := leveldb_blockchain -> outcome A.

Definition ret {A} (a : A) : action A := fun s => Returns a s [].

Definition bind {A B} (m : action A) (k : A -> action B) : action B :=
  fun s =>
    match m s with
    | Returns a s1 tr1 =>
        match k a s1 with
        | Returns b s2 tr2 => Returns b s2 (tr1 ++ tr2)
        | Faults f tr2 => Faults f (tr1 ++ tr2)
        end
    | Faults f tr1 => Faults f tr1
    end.

Notation "'do' x <- m ; k" := (bind m (fun x => k))
  (at level 10, x name, m at level 100, k at level 200).
Notation "m ;;; k" := (bind m (fun _ => k))
  (at level 100, k at level 200, right associativity).

Definition emit (e : event) : action unit := fun s => Returns tt s [e].
Definition raise {A} (f : fault) : action A := fun _ => Faults f [].
Definition get_state : action leveldb_blockchain := fun s => Returns s s [].
Definition modify (f : leveldb_blockchain -> leveldb_blockchain) : action unit :=
  fun s => Returns tt (f s) [].

(** Dereferencing a pointer member. *)
Definition deref {A} (p : leveldb_blockchain -> option A) : action A :=
  fun s => match p s with
           | Some a => Returns a s []
           | None => Faults null_dereference []
           end.

Definition trace_of {A} (o : outcome A) : list event :=
  match o with Returns _ _ tr => tr | Faults _ tr => tr end.

Definition returned {A} (o : outcome A) : bool :=
  match o with Returns _ _ _ => true | Faults _ _ => false end.

(** Field updates. *)
Definition set_disk (t : tables) (s : leveldb_blockchain) :=
  {| disk := t; strand := strand s; flock_ := flock_ s;
     db_blocks_l1 := db_blocks_l1 s; db_blocks_hash_l1 := db_blocks_hash_l1 s;
     db_txs_l1 := db_txs_l1 s; db_spends_l1 := db_spends_l1 s;
     db_address_l1 := db_address_l1 s; common_ := common_ s;
     chain_ := chain_ s; orphans_ := orphans_ s; organize_ := organize_ s;
     env_ := env_ s; reorganize_subscriber_ := reorganize_subscriber_ s;
     flush_counter := flush_counter s; details := details s;
     next_detail := next_detail s |}.

Definition set_strand (q : list operation) (s : leveldb_blockchain) :=
  {| disk := disk s; strand := q; flock_ := flock_ s;
     db_blocks_l1 := db_blocks_l1 s; db_blocks_hash_l1 := db_blocks_hash_l1 s;
     db_txs_l1 := db_txs_l1 s; db_spends_l1 := db_spends_l1 s;
     db_address_l1 := db_address_l1 s; common_ := common_ s;
     chain_ := chain_ s; orphans_ := orphans_ s; organize_ := organize_ s;
     env_ := env_ s; reorganize_subscriber_ := reorganize_subscriber_ s;
     flush_counter := flush_counter s; details := details s;
     next_detail := next_detail s |}.

Definition set_flock_ (b : bool) (s : leveldb_blockchain) :=
  {| disk := disk s; strand := strand s; flock_ := b;
     db_blocks_l1 := db_blocks_l1 s; db_blocks_hash_l1 := db_blocks_hash_l1 s;
     db_txs_l1 := db_txs_l1 s; db_spends_l1 := db_spends_l1 s;
     db_address_l1 := db_address_l1 s; common_ := common_ s;
     chain_ := chain_ s; orphans_ := orphans_ s; organize_ := organize_ s;
     env_ := env_ s; reorganize_subscriber_ := reorganize_subscriber_ s;
     flush_counter := flush_counter s; details := details s;
     next_detail := next_detail s |}.

(** The five table handles, by directory name. *)
Definition set_db (db_name : string) (b : bool) (s : leveldb_blockchain) :=
  {| disk := disk s; strand := strand s; flock_ := flock_ s;
     db_blocks_l1 := if String.eqb db_name "blocks" then b else db_blocks_l1 s;
     db_blocks_hash_l1 :=
       if String.eqb db_name "blocks_hash" then b else db_blocks_hash_l1 s;
     db_txs_l1 := if String.eqb db_name "txs" then b else db_txs_l1 s;
     db_spends_l1 := if String.eqb db_name "spends" then b else db_spends_l1 s;
     db_address_l1 :=
       if String.eqb db_name "address" then b else db_address_l1 s;
     common_ := common_ s;
     chain_ := chain_ s; orphans_ := orphans_ s; organize_ := organize_ s;
     env_ := env_ s; reorganize_subscriber_ := reorganize_subscriber_ s;
     flush_counter := flush_counter s; details := details s;
     next_detail := next_detail s |}.

Definition set_common_ (c : option leveldb_common) (s : leveldb_blockchain) :=
  {| disk := disk s; strand := strand s; flock_ := flock_ s;
     db_blocks_l1 := db_blocks_l1 s; db_blocks_hash_l1 := db_blocks_hash_l1 s;
     db_txs_l1 := db_txs_l1 s; db_spends_l1 := db_spends_l1 s;
     db_address_l1 := db_address_l1 s; common_ := c;
     chain_ := chain_ s; orphans_ := orphans_ s; organize_ := organize_ s;
     env_ := env_ s; reorganize_subscriber_ := reorganize_subscriber_ s;
     flush_counter := flush_counter s; details := details s;
     next_detail := next_detail s |}.

Definition set_orphans_ (p : option orphans_pool) (s : leveldb_blockchain) :=
  {| disk := disk s; strand := strand s; flock_ := flock_ s;
     db_blocks_l1 := db_blocks_l1 s; db_blocks_hash_l1 := db_blocks_hash_l1 s;
     db_txs_l1 := db_txs_l1 s; db_spends_l1 := db_spends_l1 s;
     db_address_l1 := db_address_l1 s; common_ := common_ s;
     chain_ := chain_ s; orphans_ := p; organize_ := organize_ s;
     env_ := env_ s; reorganize_subscriber_ := reorganize_subscriber_ s;
     flush_counter := flush_counter s; details := details s;
     next_detail := next_detail s |}.

Definition set_reorganize_subscriber_ (l : subscriber) (s : leveldb_blockchain) :=
  {| disk := disk s; strand := strand s; flock_ := flock_ s;
     db_blocks_l1 := db_blocks_l1 s; db_blocks_hash_l1 := db_blocks_hash_l1 s;
     db_txs_l1 := db_txs_l1 s; db_spends_l1 := db_spends_l1 s;
     db_address_l1 := db_address_l1 s; common_ := common_ s;
     chain_ := chain_ s; orphans_ := orphans_ s; organize_ := organize_ s;
     env_ := env_ s; reorganize_subscriber_ := l;
     flush_counter := flush_counter s; details := details s;
     next_detail := next_detail s |}.

Definition set_flush_counter (c : Z) (s : leveldb_blockchain) :=
  {| disk := disk s; strand := strand s; flock_ := flock_ s;
     db_blocks_l1 := db_blocks_l1 s; db_blocks_hash_l1 := db_blocks_hash_l1 s;
     db_txs_l1 := db_txs_l1 s; db_spends_l1 := db_spends_l1 s;
     db_address_l1 := db_address_l1 s; common_ := common_ s;
     chain_ := chain_ s; orphans_ := orphans_ s; organize_ := organize_ s;
     env_ := env_ s; reorganize_subscriber_ := reorganize_subscriber_ s;
     flush_counter := c; details := details s;
     next_detail := next_detail s |}.

Definition set_details (d : gmap positive block_detail) (n : positive)
    (s : leveldb_blockchain) :=
  {| disk := disk s; strand := strand s; flock_ := flock_ s;
     db_blocks_l1 := db_blocks_l1 s; db_blocks_hash_l1 := db_blocks_hash_l1 s;
     db_txs_l1 := db_txs_l1 s; db_spends_l1 := db_spends_l1 s;
     db_address_l1 := db_address_l1 s; common_ := common_ s;
     chain_ := chain_ s; orphans_ := orphans_ s; organize_ := organize_ s;
     env_ := env_ s; reorganize_subscriber_ := reorganize_subscriber_ s;
     flush_counter := flush_counter s; details := d;
     next_detail := n |}.

(** The facade as its constructor leaves it, on a storage directory with
    the given contents: no table is open and no collaborator exists
    except the subscriber.  The constructor does not touch the counter
    of [do_store], which is a static local: [counter] is the value it
    has in the process when the facade is constructed. *)
Definition new_leveldb_blockchain_in (counter : Z) (t : tables)
    : leveldb_blockchain :=
  {| disk := t; strand := []; flock_ := false;
     db_blocks_l1 := false; db_blocks_hash_l1 := false; db_txs_l1 := false;
     db_spends_l1 := false; db_address_l1 := false;
     common_ := None; chain_ := None; orphans_ := None; organize_ := None;
     env_ := false; reorganize_subscriber_ := [];
     flush_counter := counter; details := ∅; next_detail := 1%positive |}.

(** The first facade of a process: the counter has its initial value. *)
Definition new_leveldb_blockchain (t : tables) : leveldb_blockchain :=
  new_leveldb_blockchain_in 0 t.

(** A facade constructed in a process in which an earlier one has run:
    it goes on from the counter that the earlier one left. *)
Definition next_leveldb_blockchain (earlier : leveldb_blockchain) (t : tables)
    : leveldb_blockchain :=
  new_leveldb_blockchain_in (flush_counter earlier) t.

(** [queue]: hand a closure to the strand. *)
Definition queue (op : operation) : action unit :=
  modify (fun s => set_strand (strand s ++ [op]) s).

(** ** start, stop *)

Definition open_db (h : host) (prefix db_name : string) : action bool :=
  if db_opens h db_name then
    emit (ev_db_open db_name true) ;;;
    modify (set_db db_name true) ;;;
    ret true
  else
    emit (ev_db_open db_name false) ;;;
    emit (ev_log "Internal error opening database") ;;;
    ret false.

Definition lock_path (prefix : string) : string := prefix +:+ "/db-lock".

Definition initialize (impl : leveldb_common) (h : host) (prefix : string)
    : action bool :=
  (* the result of the touch is not tested *)
  emit (ev_touch_file (lock_path prefix)) ;;;
  (* flock_ = lock_path.c_str(): the constructor of the file lock throws
     when it cannot open the file *)
  if negb (lock_file_opens h) then raise interprocess_exception else
  if lock_held_elsewhere h then
    emit (ev_try_lock (lock_path prefix) false) ;;;
    ret false
  else
    emit (ev_try_lock (lock_path prefix) true) ;;;
    modify (set_flock_ true) ;;;
    do ok <- open_db h prefix "blocks";
    if negb ok then ret false else
    do ok <- open_db h prefix "blocks_hash";
    if negb ok then ret false else
    do ok <- open_db h prefix "txs";
    if negb ok then ret false else
    do ok <- open_db h prefix "spends";
    if negb ok then ret false else
    do ok <- open_db h prefix "address";
    if negb ok then ret false else
    modify (set_common_ (Some impl)) ;;;
    (* orphans_, chain_ and organize_ are not constructed: the lines
       that did are commented out. *)
    ret true.

Definition start (prefix : string) : action unit := queue (op_start prefix).

(** The closure queued by [start]. *)
Definition do_start (impl : leveldb_common) (h : host) (prefix : string)
    : action unit :=
  do ok <- initialize impl h prefix;
  if ok then emit (handle_start success)
  else emit (handle_start operation_failed).

(** Modelled from the spec: the reorganize subscriber, whose class is
    not in this file.  "subscribe(handler) registers a one-shot
    listener: once fired, it is not automatically re-armed"; relaying an
    event fires every registered handler once and leaves none
    registered. *)
Definition relay (ec : error_code) (fork : Z) (arrivals replaced : list block)
    (l : subscriber) : subscriber * list notice :=
  ([], map (fun handler =>
              {| n_handler := handler; n_ec := ec; n_fork := fork;
                 n_arrivals := arrivals; n_replaced := replaced |}) l).

Definition subscribe (handler : nat) (l : subscriber) : subscriber :=
  l ++ [handler].

Definition subscriber_relay (ec : error_code) (fork : Z)
    (arrivals replaced : list block) : action unit :=
  fun s =>
    let '(l, tr) := relay ec fork arrivals replaced (reorganize_subscriber_ s) in
    Returns tt (set_reorganize_subscriber_ l s) (map fire tr).

Definition reset_db (db_name : string) : action unit :=
  emit (ev_db_release db_name) ;;; modify (set_db db_name false).

Definition stop : action unit :=
  subscriber_relay service_stopped 0 [] [] ;;;
  reset_db "blocks" ;;;
  reset_db "blocks_hash" ;;;
  reset_db "txs" ;;;
  reset_db "spends" ;;;
  reset_db "address".
  (* google::protobuf::ShutdownProtobufLibrary() follows: it frees the
     static data of the protobuf library and touches no member of the
     facade. *)

Definition subscribe_reorganize (handle_reorganize : nat) : action unit :=
  modify (fun s =>
    set_reorganize_subscriber_
      (subscribe handle_reorganize (reorganize_subscriber_ s)) s).

(** ** store *)

(** Modelled from the spec: the orphan pool, whose class is not in this
    file.  "Bounded-capacity collection"; "add(block) returns false
    (treated as duplicate) if an entry with the same hash is already
    pending; otherwise inserts and returns true".  The spec leaves the
    eviction policy open; here a full pool drops its oldest entry. *)
Definition pending `{Hashing} (heap : gmap positive block_detail) (h : hash_digest)
    (p : orphans_pool) : bool :=
  existsb
    (fun o => bool_decide (hash_block_header (header (actual (heap !!! o))) = h))
    (pool p).

Definition orphans_pool_add `{Hashing} (heap : gmap positive block_detail)
    (incoming_block : positive) (p : orphans_pool) : bool * orphans_pool :=
  if pending heap
       (hash_block_header (header (actual (heap !!! incoming_block)))) p
  then (false, p)
  else
    let l := pool p ++ [incoming_block] in
    (true, {| capacity := capacity p;
              pool := drop (length l - capacity p) l |}).

(** [std::make_shared<block_detail>(stored_block)] *)
Definition make_block_detail (b : block) : action positive :=
  fun s =>
    let p := next_detail s in
    Returns p
      (set_details (<[p := new_block_detail b]> (details s)) (Pos.succ p) s) [].

(** [orphans_->add(stored_detail)] *)
Definition orphans_add `{Hashing} (stored_detail : positive) : action bool :=
  do p <- deref orphans_;
  do s <- get_state;
  let '(added, p') := orphans_pool_add (details s) stored_detail p in
  modify (set_orphans_ (Some p')) ;;;
  ret added.

(** [organize_->start()]: the organizer works on the facade's tables,
    pool and subscriber, which it was constructed with. *)
Definition organize_start_call : action unit :=
  do org <- deref organize_;
  do p <- deref orphans_;
  fun s =>
    let '(v, tr) :=
      organizer_start org
        {| ov_tables := disk s; ov_pool := p; ov_details := details s;
           ov_subscriber := reorganize_subscriber_ s |} in
    Returns tt
      (set_reorganize_subscriber_ (ov_subscriber v)
        (set_details (ov_details v) (next_detail s)
          (set_orphans_ (Some (ov_pool v))
            (set_disk (ov_tables v) s))))
      (ev_organize :: map fire tr).

(** [env_->txn_checkpoint(0, 0, 0)] *)
Definition txn_checkpoint : action unit :=
  fun s => if env_ s then Returns tt s [ev_txn_checkpoint]
           else Faults null_dereference [].

Definition size_t_wrap (n : Z) : Z := n mod 2 ^ 64.

Definition do_store `{Hashing} (stored_block : block) : action unit :=
  do stored_detail <- make_block_detail stored_block;
  do chain <- deref chain_;
  do s <- get_state;
  let depth :=
    find_index chain (disk s) (hash_block_header (header stored_block)) in
  if decide (depth <> -1) then
    emit (handle_store duplicate {| status := confirmed; depth := depth |})
  else
    do added <- orphans_add stored_detail;
    (if negb added then
       emit (handle_store duplicate {| status := orphan; depth := 0 |})
     else ret tt) ;;;
    organize_start_call ;;;
    do s <- get_state;
    emit (handle_store (errc (details s !!! stored_detail))
            (info (details s !!! stored_detail))) ;;;
    (* Every N blocks, we flush database *)
    let counter := size_t_wrap (flush_counter s + 1) in
    modify (set_flush_counter counter) ;;;
    if decide (counter = 2000) then
      txn_checkpoint ;;;
      modify (set_flush_counter 0)
    else ret tt.

Definition store (stored_block : block) : action unit :=
  queue (op_store stored_block).

(** ** import *)

Definition do_import (import_block : block) (depth : Z) : action unit :=
  do common <- deref common_;
  do s <- get_state;
  let '(saved, t) := save_block common (disk s) depth import_block in
  modify (set_disk t) ;;;
  if negb saved then emit (handle_import operation_failed)
  else emit (handle_import success).

Definition import (import_block : block) (depth : Z) : action unit :=
  queue (op_import import_block depth).

(** ** fetch_block_header, fetch_block_transaction_hashes *)

(** Modelled from the spec: the protobuf conversions of
    [protobuf_wrapper.hpp], which is not in this file.  "Record
    encoding: block/transaction payloads use an opaque ... structured
    serialization"; a stored block keeps its header fields and the
    hashes of its transactions, in order. *)
Definition block_header_to_protobuf `{Hashing} (b : block) : proto_block :=
  {| pb_header := header b;
     pb_transactions := map hash_transaction (transactions b) |}.

Definition protobuf_to_block_header (proto_block : proto_block) : block :=
  {| header := pb_header proto_block; transactions := [] |}.

Definition fetch_block_header_impl {Index : Type}
    (fetch : tables -> Index -> option proto_block) (index : Index)
    (t : tables) : option block :=
  match fetch t index with
  | None => None
  | Some proto_block => Some (protobuf_to_block_header proto_block)
  end.

Definition fetch_block_header_by_depth (depth : Z) : action unit :=
  do common <- deref common_;
  do s <- get_state;
  match fetch_block_header_impl (fetch_proto_block common) depth (disk s) with
  | None => emit (handle_fetch_block_header not_found default_block)
  | Some serial_block => emit (handle_fetch_block_header success serial_block)
  end.

Definition fetch_block_header_by_hash (block_hash : hash_digest)
    : action unit :=
  do common <- deref common_;
  do s <- get_state;
  match fetch_block_header_impl (fetch_proto_block_by_hash common) block_hash
          (disk s) with
  | None => emit (handle_fetch_block_header not_found default_block)
  | Some serial_block => emit (handle_fetch_block_header success serial_block)
  end.

(** The loop over [proto_block.transactions()]. *)
Fixpoint tx_hashes_loop (raw : list (list Z))
    (tx_hashes : list inventory_vector) : action (list inventory_vector) :=
  match raw with
  | [] => ret tx_hashes
  | raw_tx_hash :: rest =>
      (* BITCOIN_ASSERT(raw_tx_hash.size() == tx_inv.hash.size()) *)
      if decide (length raw_tx_hash = 32%nat) then
        tx_hashes_loop rest
          (tx_hashes ++
             [{| inv_type := inv_transaction; inv_hash := raw_tx_hash |}])
      else raise assertion_failure
  end.

Definition fetch_blk_tx_hashes_impl {Index : Type}
    (fetch : tables -> Index -> option proto_block) (index : Index)
    : action unit :=
  do s <- get_state;
  match fetch (disk s) index with
  | None => emit (handle_fetch_block_transaction_hashes not_found [])
  | Some proto_block =>
      do tx_hashes <- tx_hashes_loop (pb_transactions proto_block) [];
      emit (handle_fetch_block_transaction_hashes success tx_hashes)
  end.

Definition do_fetch_block_transaction_hashes_by_depth (depth : Z)
    : action unit :=
  do common <- deref common_;
  fetch_blk_tx_hashes_impl (fetch_proto_block common) depth.

Definition do_fetch_block_transaction_hashes_by_hash (block_hash : hash_digest)
    : action unit :=
  do common <- deref common_;
  fetch_blk_tx_hashes_impl (fetch_proto_block_by_hash common) block_hash.

(** ** fetch_block_depth, fetch_last_depth *)

Definition uint32_wrap (n : Z) : Z := n mod 2 ^ 32.

Definition do_fetch_block_depth (block_hash : hash_digest) : action unit :=
  do common <- deref common_;
  do s <- get_state;
  let depth := uint32_wrap (fetch_block_depth common (disk s) block_hash) in
  if decide (depth = max_uint32) then
    emit (handle_fetch_block_depth not_found 0)
  else
    emit (handle_fetch_block_depth success depth).

Definition do_fetch_last_depth : action unit :=
  do common <- deref common_;
  do s <- get_state;
  let last_depth := uint32_wrap (find_last_block_depth common (disk s)) in
  if decide (last_depth = max_uint32) then
    emit (handle_fetch_last_depth not_found 0)
  else
    emit (handle_fetch_last_depth success last_depth).

(** ** fetch_transaction, fetch_transaction_index, fetch_spend *)

(** [message::transaction()] and [message::input_point()] *)
Definition default_transaction : transaction :=
  {| tx_version := 0; inputs := []; outputs := []; locktime := 0 |}.

Definition default_input_point : input_point :=
  {| ip_hash := null_hash; ip_index := 0 |}.

(** Modelled from the spec: [protobuf_to_transaction] of
    [protobuf_wrapper.hpp], which is not in this file; a
    "TransactionRecord" is the "persisted Transaction plus back-pointer
    (parent depth, index-within-block)", and the conversion gives the
    transaction. *)
Definition protobuf_to_transaction (proto_tx : proto_transaction)
    : transaction :=
  pt_tx proto_tx.

Definition do_fetch_transaction (transaction_hash : hash_digest)
    : action unit :=
  do common <- deref common_;
  do s <- get_state;
  match fetch_proto_transaction common (disk s) transaction_hash with
  | None => emit (handle_fetch_transaction not_found default_transaction)
  | Some proto_tx =>
      emit (handle_fetch_transaction success (protobuf_to_transaction proto_tx))
  end.

Definition do_fetch_transaction_index (transaction_hash : hash_digest)
    : action unit :=
  do common <- deref common_;
  do s <- get_state;
  match fetch_proto_transaction common (disk s) transaction_hash with
  | None => emit (handle_fetch_transaction_index not_found 0 0)
  | Some proto_tx =>
      emit (handle_fetch_transaction_index success
              (pt_parent_depth proto_tx) (pt_parent_index proto_tx))
  end.

Definition do_fetch_spend (outpoint : output_point) : action unit :=
  do common <- deref common_;
  do s <- get_state;
  match fetch_spend common (disk s) outpoint with
  | None => emit (handle_fetch_spend unspent_output default_input_point)
  | Some input_spend => emit (handle_fetch_spend success input_spend)
  end.

(** ** fetch_outputs *)

(** The serializer and deserializer of the library: the facade only
    calls them.  [read_hash] is given the next 32 bytes and
    [read_4_bytes] the next 4. *)
Class Serializer := {
  write_short_hash : short_hash -> data_chunk;
  write_hash : hash_digest -> data_chunk;
  write_4_bytes : Z -> data_chunk;
  read_hash : data_chunk -> hash_digest;
  read_4_bytes : data_chunk -> Z
}.

Definition outpoint_size : nat := (32 + 4)%nat.

Inductive loop_result :=
| loop_done (assoc_outs : list output_point)
| loop_read_past_end
| loop_out_of_fuel.

(** The loop [for (it = begin; it != end; it += outpoint_size)], with
    the iterator as an offset into the value. *)
Fixpoint outpoints_loop `{Serializer} (fuel : nat) (outpoints : list Z)
    (it : nat) (assoc_outs : list output_point) : loop_result :=
  match fuel with
  | O => loop_out_of_fuel
  | S fuel' =>
      if decide (it = length outpoints) then loop_done assoc_outs
      else if decide (it + outpoint_size <= length outpoints)%nat then
        let raw_outpoint := take outpoint_size (drop it outpoints) in
        let outpoint :=
          {| op_hash := read_hash (take 32 raw_outpoint);
             op_index := read_4_bytes (take 4 (drop 32 raw_outpoint)) |} in
        outpoints_loop fuel' outpoints (it + outpoint_size)%nat
          (assoc_outs ++ [outpoint])
      else loop_read_past_end
  end.

(** [db_address_l1->Get(...)] *)
Definition db_address_get (h : host) (key : data_chunk) : action get_status :=
  fun s =>
    if db_address_l1 s then
      Returns
        (if address_read_fails h then get_io_error
         else match address (disk s) !! key with
              | Some v => get_ok v
              | None => get_not_found
              end)
        s [ev_db_get "address"]
    else Faults null_dereference [].

Definition do_fetch_outputs `{Serializer} (h : host) (a : payment_address)
    : action unit :=
  let raw_address := addr_version a :: write_short_hash (addr_hash a) in
  do st <- db_address_get h raw_address;
  match st with
  | get_not_found => emit (handle_fetch_outputs not_found [])
  | get_io_error =>
      emit (handle_fetch_outputs operation_failed []) ;;;
      emit (ev_log "Error fetch_outputs")
  | get_ok outpoints =>
      (* Must be a multiple of (32 + 4) *)
      if decide (length outpoints mod outpoint_size = 0)%nat then
        match outpoints_loop (S (length outpoints)) outpoints 0 [] with
        | loop_done assoc_outs => emit (handle_fetch_outputs success assoc_outs)
        | loop_read_past_end => raise read_past_end
        | loop_out_of_fuel => raise out_of_fuel
        end
      else raise assertion_failure
  end.

Definition fetch_outputs (a : payment_address) : action unit :=
  if decide (addr_type a = pubkey_hash) then queue (op_fetch_outputs a)
  else emit (handle_fetch_outputs unsupported_payment_type []).

(** ** The strand *)

Definition exec `{Hashing} `{Serializer} (impl : leveldb_common) (h : host)
    (op : operation) : action unit :=
  match op with
  | op_start prefix => do_start impl h prefix
  | op_store b => do_store b
  | op_import b d => do_import b d
  | op_fetch_block_header_by_depth d => fetch_block_header_by_depth d
  | op_fetch_block_header_by_hash bh => fetch_block_header_by_hash bh
  | op_fetch_block_transaction_hashes_by_depth d =>
      do_fetch_block_transaction_hashes_by_depth d
  | op_fetch_block_transaction_hashes_by_hash bh =>
      do_fetch_block_transaction_hashes_by_hash bh
  | op_fetch_block_depth bh => do_fetch_block_depth bh
  | op_fetch_last_depth => do_fetch_last_depth
  | op_fetch_transaction th => do_fetch_transaction th
  | op_fetch_transaction_index th => do_fetch_transaction_index th
  | op_fetch_spend o => do_fetch_spend o
  | op_fetch_outputs a => do_fetch_outputs h a
  end.

(** The strand runs the closures one at a time, oldest first. *)
Definition run_next `{Hashing} `{Serializer} (impl : leveldb_common)
    (h : host) : action unit :=
  fun s =>
    match strand s with
    | [] => Returns tt s []
    | op :: rest => (modify (set_strand rest) ;;; exec impl h op) s
    end.

(** ** The collaborators, from the specification *)

Definition set_blocks (m : gmap Z proto_block) (t : tables) : tables :=
  {| blocks := m; blocks_hash := blocks_hash t; txs := txs t;
     spends := spends t; address := address t |}.
Definition set_blocks_hash (m : gmap (list Z) Z) (t : tables) : tables :=
  {| blocks := blocks t; blocks_hash := m; txs := txs t;
     spends := spends t; address := address t |}.
Definition set_txs (m : gmap (list Z) proto_transaction) (t : tables) : tables :=
  {| blocks := blocks t; blocks_hash := blocks_hash t; txs := m;
     spends := spends t; address := address t |}.
Definition set_spends (m : gmap (list Z * Z) input_point) (t : tables) : tables :=
  {| blocks := blocks t; blocks_hash := blocks_hash t; txs := txs t;
     spends := m; address := address t |}.
Definition set_address (m : gmap (list Z) (list Z)) (t : tables) : tables :=
  {| blocks := blocks t; blocks_hash := blocks_hash t; txs := txs t;
     spends := spends t; address := m |}.

Fixpoint fold_indexed {A S : Type} (f : S -> Z -> A -> S) (i : Z) (l : list A)
    (s : S) : S :=
  match l with
  | [] => s
  | x :: r => fold_indexed f (i + 1) r (f s i x)
  end.

Definition address_key `{Serializer} (a : payment_address) : data_chunk :=
  addr_version a :: write_short_hash (addr_hash a).

(** Modelled from the spec: the index-writing step of a block
    confirmation, which lives in [leveldb_common] and the chain keeper,
    not in this file.  "write its BlockRecord, hash->depth entry,
    transaction records, spend index entries (derived by resolving each
    input's referenced output), and address index entries"; a
    TransactionRecord carries the "back-pointer (parent depth,
    index-within-block)", a SpendIndexEntry maps "OutputPoint ->
    InputPoint", an address entry is the "append-only ordered list of
    OutputPoint ever paid to it", stored as the "concatenation of
    fixed-size output-point records (hash + 4-byte index)". *)
Definition index_input (tx_hash : hash_digest) (t : tables) (i : Z)
    (input : transaction_input) : tables :=
  set_spends
    (<[(op_hash (previous_output input), op_index (previous_output input)) :=
         {| ip_hash := tx_hash; ip_index := i |}]> (spends t)) t.

Definition index_output `{Serializer} (tx_hash : hash_digest) (t : tables)
    (i : Z) (output : transaction_output) : tables :=
  match paid_to output with
  | Some a =>
      set_address
        (<[address_key a :=
             default [] (address t !! address_key a)
               ++ write_hash tx_hash ++ write_4_bytes i]> (address t)) t
  | None => t
  end.

Definition write_transaction `{Hashing} `{Serializer} (depth : Z) (t : tables)
    (i : Z) (tx : transaction) : tables :=
  let tx_hash := hash_transaction tx in
  let t1 :=
    set_txs (<[tx_hash := {| pt_tx := tx; pt_parent_depth := depth;
                              pt_parent_index := i |}]> (txs t)) t in
  let t2 := fold_indexed (index_input tx_hash) 0 (inputs tx) t1 in
  fold_indexed (index_output tx_hash) 0 (outputs tx) t2.

Definition write_block `{Hashing} `{Serializer} (t : tables) (depth : Z)
    (b : block) : tables :=
  let t1 := set_blocks (<[depth := block_header_to_protobuf b]> (blocks t)) t in
  let t2 :=
    set_blocks_hash
      (<[hash_block_header (header b) := depth]> (blocks_hash t1)) t1 in
  fold_indexed (write_transaction depth) 0 (transactions b) t2.

(** Modelled from the spec: the reversal of the index entries of a
    block that is unconfirmed.  "unconfirm every block on the losing
    branch ..., reversing hash->depth, transaction, spend, and address
    index entries for each"; the record of the depth is dropped as
    well, so that the last depth is the depth of the tip. *)
Definition unindex_input (t : tables) (input : transaction_input) : tables :=
  set_spends
    (delete (op_hash (previous_output input), op_index (previous_output input))
       (spends t)) t.

Definition unindex_output `{Serializer} (t : tables)
    (output : transaction_output) : tables :=
  match paid_to output with
  | Some a =>
      let l := default [] (address t !! address_key a) in
      set_address
        (<[address_key a := take (length l - outpoint_size) l]> (address t)) t
  | None => t
  end.

Definition erase_transaction `{Serializer} (t : tables) (tx_hash : hash_digest)
    : tables :=
  match txs t !! tx_hash with
  | None => t
  | Some ptx =>
      let t1 := fold_left unindex_output (outputs (pt_tx ptx)) t in
      let t2 := fold_left unindex_input (inputs (pt_tx ptx)) t1 in
      set_txs (delete tx_hash (txs t2)) t2
  end.

Definition stored_block `{Hashing} (t : tables) (pb : proto_block) : block :=
  {| header := pb_header pb;
     transactions :=
       omap (fun h => pt_tx <$> txs t !! h) (pb_transactions pb) |}.

Definition erase_block `{Hashing} `{Serializer} (t : tables) (depth : Z)
    : tables :=
  match blocks t !! depth with
  | None => t
  | Some pb =>
      let t1 := fold_left erase_transaction (rev (pb_transactions pb)) t in
      let t2 :=
        set_blocks_hash
          (delete (hash_block_header (pb_header pb)) (blocks_hash t1)) t1 in
      set_blocks (delete depth (blocks t2)) t2
  end.

(** The depth of the tip: the largest key of the blocks table, -1 when
    the table is empty. *)
Definition last_depth (t : tables) : Z :=
  foldr Z.max (-1) (fst <$> map_to_list (blocks t)).

(** Modelled from the spec: [leveldb_common], the helper that reads and
    writes the five tables; its class is not in this file.
    "BlockRecord: persisted Block keyed by depth, plus reverse mapping
    hash->depth"; a lookup miss is the sentinel the facade tests for. *)
Definition spec_common `{Hashing} `{Serializer} : leveldb_common :=
  {| save_block := fun t depth b => (true, write_block t depth b);
     fetch_proto_block := fun t depth => blocks t !! depth;
     fetch_proto_block_by_hash := fun t h =>
       match blocks_hash t !! h with
       | Some depth => blocks t !! depth
       | None => None
       end;
     fetch_proto_transaction := fun t h => txs t !! h;
     fetch_spend := fun t o => spends t !! (op_hash o, op_index o);
     fetch_block_depth := fun t h => default max_uint32 (blocks_hash t !! h);
     find_last_block_depth := fun t =>
       if decide (last_depth t = -1) then max_uint32 else last_depth t |}.

(** Modelled from the spec: the chain keeper's [find_index], not in
    this file: the depth of a confirmed hash, -1 for any other. *)
Definition spec_chain_keeper : chain_keeper :=
  {| find_index := fun t h => default (-1) (blocks_hash t !! h) |}.

Definition set_ov_tables (t : tables) (v : organizer_view) : organizer_view :=
  {| ov_tables := t; ov_pool := ov_pool v; ov_details := ov_details v;
     ov_subscriber := ov_subscriber v |}.
Definition set_ov_pool (p : orphans_pool) (v : organizer_view) : organizer_view :=
  {| ov_tables := ov_tables v; ov_pool := p; ov_details := ov_details v;
     ov_subscriber := ov_subscriber v |}.
Definition set_ov_details (d : gmap positive block_detail) (v : organizer_view)
    : organizer_view :=
  {| ov_tables := ov_tables v; ov_pool := ov_pool v; ov_details := d;
     ov_subscriber := ov_subscriber v |}.
Definition set_ov_subscriber (l : subscriber) (v : organizer_view)
    : organizer_view :=
  {| ov_tables := ov_tables v; ov_pool := ov_pool v;
     ov_details := ov_details v; ov_subscriber := l |}.

Definition hash_of `{Hashing} (heap : gmap positive block_detail) (o : positive)
    : hash_digest :=
  hash_block_header (header (actual (heap !!! o))).

Definition parent_of (heap : gmap positive block_detail) (o : positive)
    : hash_digest :=
  previous_block_hash (header (actual (heap !!! o))).

(** Modelled from the spec: the chain organizer, whose class is not in
    this file (section 4.4).

    The pool "must support lookup both by a block's own hash and by its
    declared parent hash": [branch_to] follows parent hashes from a
    pending block back through the pool, which gives the pending branch
    that ends in it, oldest block first. *)
Fixpoint branch_to `{Hashing} (fuel : nat) (heap : gmap positive block_detail)
    (l : list positive) (cur : positive) (chain : list positive)
    : list positive :=
  match fuel with
  | O => chain
  | S fuel' =>
      match find (fun o => bool_decide (hash_of heap o = parent_of heap cur)) l
      with
      | Some o => branch_to fuel' heap l o (o :: chain)
      | None => chain
      end
  end.

Definition pending_branch `{Hashing} (v : organizer_view) (tip : positive)
    : list positive :=
  branch_to (length (pool (ov_pool v))) (ov_details v) (pool (ov_pool v))
    tip [tip].

(** "find the fork point": the depth of the confirmed block the branch
    hangs on.  Genesis has no parent and goes on the empty chain, "at
    depth 0". *)
Definition fork_point (v : organizer_view) (branch : list positive)
    : option Z :=
  match branch with
  | [] => None
  | first :: _ =>
      let parent := parent_of (ov_details v) first in
      match blocks_hash (ov_tables v) !! parent with
      | Some p => Some p
      | None =>
          if decide (parent = null_hash /\ last_depth (ov_tables v) = -1)
          then Some (-1) else None
      end
  end.

(** A branch is connected when it is "strictly longer than the
    currently canonical one" above the fork point; a block whose parent
    is the tip always is. *)
Definition wins (v : organizer_view) (branch : list positive) : bool :=
  match fork_point v branch with
  | Some p => bool_decide (last_depth (ov_tables v) - p < Z.of_nat (length branch))
  | None => false
  end.

Definition reset_confirmed (d : Z) (bd : block_detail) : block_detail :=
  if decide (info bd = {| status := confirmed; depth := d |}) then
    {| actual := actual bd; info := {| status := orphan; depth := 0 |};
       errc := errc bd |}
  else bd.

(** "unconfirm every block on the losing branch from its tip down to
    (but excluding) the fork point": the tip is taken off, and a detail
    that was confirmed at its depth is an orphan again. *)
Definition pop_block `{Hashing} `{Serializer} (v : organizer_view)
    : organizer_view * list block :=
  let t := ov_tables v in
  let d := last_depth t in
  match blocks t !! d with
  | None => (v, [])
  | Some pb =>
      (set_ov_details (reset_confirmed d <$> ov_details v)
         (set_ov_tables (erase_block t d) v),
       [stored_block t pb])
  end.

Fixpoint pop_blocks `{Hashing} `{Serializer} (fuel : nat) (p : Z)
    (v : organizer_view) (replaced : list block)
    : organizer_view * list block :=
  match fuel with
  | O => (v, replaced)
  | S fuel' =>
      if decide (p < last_depth (ov_tables v)) then
        let '(v', b) := pop_block v in
        pop_blocks fuel' p v' (replaced ++ b)
      else (v, replaced)
  end.

(** "detach that orphan, assign it depth = parent depth + 1, write its
    BlockRecord, ...": the parent is the tip when this runs. *)
Definition push_block `{Hashing} `{Serializer} (v : organizer_view)
    (o : positive)
    : organizer_view :=
  let d := last_depth (ov_tables v) + 1 in
  let bd := ov_details v !!! o in
  {| ov_tables := write_block (ov_tables v) d (actual bd);
     ov_pool := {| capacity := capacity (ov_pool v);
                   pool := List.filter (fun x => negb (Pos.eqb x o))
                             (pool (ov_pool v)) |};
     ov_details :=
       <[o := {| actual := actual bd;
                 info := {| status := confirmed; depth := d |};
                 errc := success |}]> (ov_details v);
     ov_subscriber := ov_subscriber v |}.

(** "perform reorganization: (1) find the fork point ...; (2) unconfirm
    every block on the losing branch ...; (3) confirm the winning
    branch's blocks in increasing depth order using the same
    index-writing step above; (4) publish one reorganization event:
    {fork depth, blocks removed listed tip-to-fork, blocks added listed
    fork-to-tip}".  Nothing is removed when the branch hangs on the
    tip, and then nothing is published. *)
Definition replace_chain `{Hashing} `{Serializer} (v : organizer_view) (p : Z)
    (branch : list positive) : organizer_view * list notice :=
  let '(v1, replaced) :=
    pop_blocks (Z.to_nat (last_depth (ov_tables v) - p)) p v [] in
  let v2 := fold_left push_block branch v1 in
  match replaced with
  | [] => (v2, [])
  | _ =>
      let '(l, tr) :=
        relay success p (map (fun o => actual (ov_details v !!! o)) branch)
          replaced (ov_subscriber v2) in
      (set_ov_subscriber l v2, tr)
  end.

(** "while some pending orphan's parent hash equals a
    currently-confirmed block's hash ...; then repeat for any orphans
    whose parent is this newly confirmed block (cascading
    attachment)". *)
Fixpoint organize_loop `{Hashing} `{Serializer} (fuel : nat)
    (v : organizer_view) (tr : list notice) : organizer_view * list notice :=
  match fuel with
  | O => (v, tr)
  | S fuel' =>
      match find (fun tip => wins v (pending_branch v tip)) (pool (ov_pool v))
      with
      | None => (v, tr)
      | Some tip =>
          let branch := pending_branch v tip in
          match fork_point v branch with
          | None => (v, tr)
          | Some p =>
              let '(v', tr') := replace_chain v p branch in
              organize_loop fuel' v' (tr ++ tr')
          end
      end
  end.

Definition spec_organizer `{Hashing} `{Serializer} : organizer :=
  {| organizer_start := fun v =>
       organize_loop (length (pool (ov_pool v))) v [] |}.

(** A facade whose collaborators are all constructed and whose
    environment is open.  No line of the file builds such a facade:
    the lines of [initialize] that construct the pool, the chain keeper
    and the organizer are commented out, and nothing assigns [env_]. *)
Definition wired (s : leveldb_blockchain) : Prop :=
  is_Some (chain_ s) /\ is_Some (orphans_ s) /\ is_Some (organize_ s)
  /\ env_ s = true.

(** ** Concrete inputs *)

(** A stand-in for the library's hashes and byte order, to run the
    definitions on concrete blocks: a header is told by its nonce and
    its timestamp, a transaction by its version; the examples keep
    these below 256. *)
Definition example_hash (n : Z) : hash_digest := [n; 0] ++ repeat 0 30.

Definition example_hashing : Hashing :=
  {| hash_block_header := fun h => [nonce h; timestamp h] ++ repeat 0 30;
     hash_transaction := fun tx => [tx_version tx; 0] ++ repeat 0 30;
     hash_transaction_size := fun tx => eq_refl |}.

Definition example_serializer : Serializer :=
  {| write_short_hash := fun h => h;
     write_hash := fun h => h;
     write_4_bytes := fun i =>
       [i mod 256; i / 256 mod 256; i / 65536 mod 256; i / 16777216 mod 256];
     read_hash := fun l => l;
     read_4_bytes := fun l => foldr (fun b acc => b + 256 * acc) 0 l |}.

Definition example_common : leveldb_common :=
  @spec_common example_hashing example_serializer.

Definition free_host : host :=
  {| lock := lock_free; db_opens := fun _ => true;
     address_read_fails := false |}.

Definition locked_host : host :=
  {| lock := lock_held; db_opens := fun _ => true;
     address_read_fails := false |}.

(** A host on which the lock file cannot be opened, for instance a
    storage directory that does not exist. *)
Definition closed_host : host :=
  {| lock := lock_unopenable; db_opens := fun _ => true;
     address_read_fails := false |}.

(** The facade after a successful [start] on an empty directory. *)
Definition started : leveldb_blockchain :=
  match do_start example_common free_host "db" (new_leveldb_blockchain empty_tables)
  with
  | Returns _ s _ => s
  | Faults _ _ => new_leveldb_blockchain empty_tables
  end.

(** What the commented-out lines of [initialize] would do, were they
    restored: [orphans_pool(20)], a chain keeper and an organizer.
    This is not a state of the code as it stands (see
    [wire_is_not_reachable]); it is the input on which the branches of
    [do_store] behind the first dereference can be run.  [env_] stays
    as it is: those lines do not assign it either. *)
Definition wire (s : leveldb_blockchain) : leveldb_blockchain :=
  {| disk := disk s; strand := strand s; flock_ := flock_ s;
     db_blocks_l1 := db_blocks_l1 s; db_blocks_hash_l1 := db_blocks_hash_l1 s;
     db_txs_l1 := db_txs_l1 s; db_spends_l1 := db_spends_l1 s;
     db_address_l1 := db_address_l1 s; common_ := common_ s;
     chain_ := Some spec_chain_keeper;
     orphans_ := Some {| capacity := 20; pool := [] |};
     organize_ := Some (@spec_organizer example_hashing example_serializer);
     env_ := env_ s; reorganize_subscriber_ := reorganize_subscriber_ s;
     flush_counter := flush_counter s; details := details s;
     next_detail := next_detail s |}.

(** An open environment, which no line of the file provides. *)
Definition with_environment (s : leveldb_blockchain) : leveldb_blockchain :=
  {| disk := disk s; strand := strand s; flock_ := flock_ s;
     db_blocks_l1 := db_blocks_l1 s; db_blocks_hash_l1 := db_blocks_hash_l1 s;
     db_txs_l1 := db_txs_l1 s; db_spends_l1 := db_spends_l1 s;
     db_address_l1 := db_address_l1 s; common_ := common_ s;
     chain_ := chain_ s; orphans_ := orphans_ s; organize_ := organize_ s;
     env_ := true; reorganize_subscriber_ := reorganize_subscriber_ s;
     flush_counter := flush_counter s; details := details s;
     next_detail := next_detail s |}.

Definition example_block (n : Z) (parent : hash_digest)
    (txl : list transaction) : block :=
  {| header := {| version := 1; previous_block_hash := parent;
                  merkle := null_hash; timestamp := 0; bits := 0; nonce := n |};
     transactions := txl |}.

Definition example_tx (n : Z) : transaction :=
  {| tx_version := n;
     inputs := [{| previous_output :=
                     {| op_hash := example_hash 9; op_index := 0 |} |}];
     outputs := [{| value := 5;
                    paid_to := Some {| addr_type := pubkey_hash;
                                       addr_version := 0;
                                       addr_hash := [1; 2; 3] |} |}];
     locktime := 0 |}.

Definition state_after {A} (o : outcome A) (s : leveldb_blockchain)
    : leveldb_blockchain :=
  match o with Returns _ s' _ => s' | Faults _ _ => s end.

(** ** Notions used in the statements *)

(** The facade of [wire] after genesis was stored. *)
Definition with_genesis : leveldb_blockchain :=
  state_after
    (@do_store example_hashing (example_block 1 null_hash [example_tx 7])
       (wire started))
    (wire started).

(** The [k]-th 36-byte record of a value and the output point in it,
    stated without the loop. *)
Definition record_at (outpoints : list Z) (k : nat) : list Z :=
  take outpoint_size (drop (k * outpoint_size) outpoints).

Definition decode_outpoint `{Serializer} (raw_outpoint : list Z) : output_point :=
  {| op_hash := read_hash (take 32 raw_outpoint);
     op_index := read_4_bytes (take 4 (drop 32 raw_outpoint)) |}.

Definition stored_outpoints `{Serializer} (outpoints : list Z)
    : list output_point :=
  map (fun k => decode_outpoint (record_at outpoints k))
      (seq 0 (length outpoints / outpoint_size)).

(** A started facade whose address table has two records under the
    key of an address. *)
Definition example_address : payment_address :=
  {| addr_type := pubkey_hash; addr_version := 0; addr_hash := [1; 2; 3] |}.

Definition two_outpoints : list Z :=
  example_hash 7 ++ [1; 0; 0; 0] ++ example_hash 8 ++ [2; 1; 0; 0].

Definition with_outpoints : leveldb_blockchain :=
  set_disk (set_address {[ [0; 1; 2; 3] := two_outpoints ]} empty_tables)
    started.

(** The view the organizer is started on when [do_store] hands it the
    block [b]: the fresh detail is in the heap, and in the pool unless
    its hash was pending. *)
Definition stored_heap (s : leveldb_blockchain) (b : block)
    : gmap positive block_detail :=
  <[next_detail s := new_block_detail b]> (details s).

Definition store_view `{Hashing} (s : leveldb_blockchain) (p : orphans_pool)
    (b : block) : organizer_view :=
  {| ov_tables := disk s;
     ov_pool := snd (orphans_pool_add (stored_heap s b) (next_detail s) p);
     ov_details := stored_heap s b;
     ov_subscriber := reorganize_subscriber_ s |}.

(** The facade after the organizer left the view [v] and the counter
    was set to [counter]. *)
Definition stored_state (s : leveldb_blockchain) (v : organizer_view)
    (counter : Z) : leveldb_blockchain :=
  {| disk := ov_tables v; strand := strand s; flock_ := flock_ s;
     db_blocks_l1 := db_blocks_l1 s; db_blocks_hash_l1 := db_blocks_hash_l1 s;
     db_txs_l1 := db_txs_l1 s; db_spends_l1 := db_spends_l1 s;
     db_address_l1 := db_address_l1 s; common_ := common_ s;
     chain_ := chain_ s; orphans_ := Some (ov_pool v);
     organize_ := organize_ s; env_ := env_ s;
     reorganize_subscriber_ := ov_subscriber v;
     flush_counter := counter; details := ov_details v;
     next_detail := Pos.succ (next_detail s) |}.

(** The events of a call that goes past the check for a confirmed
    duplicate, up to the counter. *)
Definition stored_trace `{Hashing} (s : leveldb_blockchain) (p : orphans_pool)
    (org : organizer) (b : block) : list event :=
  (if fst (orphans_pool_add (stored_heap s b) (next_detail s) p) then []
   else [handle_store duplicate {| status := orphan; depth := 0 |}])
  ++ ev_organize :: map fire (snd (organizer_start org (store_view s p b)))
  ++ [handle_store
        (errc (ov_details (fst (organizer_start org (store_view s p b)))
                 !!! next_detail s))
        (info (ov_details (fst (organizer_start org (store_view s p b)))
                 !!! next_detail s))].

(** A block on top of genesis, and the facade after it was stored. *)
Definition example_child : block :=
  example_block 2 (example_hash 1) [example_tx 8].

Definition with_child : leveldb_blockchain :=
  state_after (@do_store example_hashing example_child with_genesis)
    with_genesis.

(** The facade of [wire] with one orphan pending. *)
Definition with_orphan : leveldb_blockchain :=
  state_after
    (@do_store example_hashing (example_block 3 (example_hash 2) [])
       (wire started))
    (wire started).

(** One call of a run: the facade before it, the block, and what the
    call did. *)
Record store_step :=
  { pre : leveldb_blockchain; stored : block; result : outcome unit }.

(** The blocks are stored one after the other; a fault ends the run. *)
Fixpoint store_run `{Hashing} (bs : list block) (s : leveldb_blockchain)
    : list store_step :=
  match bs with
  | [] => []
  | b :: rest =>
      let o := do_store b s in
      {| pre := s; stored := b; result := o |}
      :: match o with
         | Returns _ s' _ => store_run rest s'
         | Faults _ _ => []
         end
  end.

Definition is_checkpoint (e : event) : bool :=
  match e with ev_txn_checkpoint => true | _ => false end.

Definition is_accepted (e : event) : bool :=
  match e with
  | handle_store success {| status := confirmed |} => true
  | _ => false
  end.

(** The call forced a flush. *)
Definition flushed (st : store_step) : bool :=
  existsb is_checkpoint (trace_of (result st)).

(** The call reported that the block was confirmed. *)
Definition accepted (st : store_step) : bool :=
  existsb is_accepted (trace_of (result st)).

(** The hash of the block was not confirmed before the call, so the
    call went past the first check of [do_store]. *)
Definition passed `{Hashing} (st : store_step) : bool :=
  match chain_ (pre st) with
  | Some chain =>
      bool_decide (find_index chain (disk (pre st))
                     (hash_block_header (header (stored st))) = -1)
  | None => false
  end.

Fixpoint count_steps (f : store_step -> bool) (run : list store_step) : Z :=
  match run with
  | [] => 0
  | st :: rest => (if f st then 1 else 0) + count_steps f rest
  end.

(** 2000 blocks with distinct hashes whose parent is unknown. *)
Definition example_orphans : list block :=
  flat_map
    (fun t =>
       map (fun n =>
              {| header := {| version := 1;
                              previous_block_hash := example_hash 200;
                              merkle := null_hash; timestamp := Z.of_nat t;
                              bits := 0; nonce := Z.of_nat n |};
                 transactions := [] |})
           (seq 0 250))
    (seq 1 8).

(** Genesis, an orphan and then its parent. *)
Definition example_run_blocks : list block :=
  [example_block 1 null_hash [example_tx 7];
   example_block 3 (example_hash 2) [];
   example_block 2 (example_hash 1) []].



(** ** Further notions for the facade *)

(** The table handle of a directory name. *)
Definition db_handle (db_name : string) (s : leveldb_blockchain) : bool :=
  if String.eqb db_name "blocks" then db_blocks_l1 s
  else if String.eqb db_name "blocks_hash" then db_blocks_hash_l1 s
  else if String.eqb db_name "txs" then db_txs_l1 s
  else if String.eqb db_name "spends" then db_spends_l1 s
  else if String.eqb db_name "address" then db_address_l1 s
  else false.

(** The operations that read. *)
Definition is_fetch (op : operation) : bool :=
  match op with
  | op_start _ | op_store _ | op_import _ _ => false
  | _ => true
  end.

Definition is_start (op : operation) : bool :=
  match op with op_start _ => true | _ => false end.

(** The facade after a whole run of store calls, when no call faults. *)
Fixpoint store_all `{Hashing} (bs : list block) (s : leveldb_blockchain)
    : option leveldb_blockchain :=
  match bs with
  | [] => Some s
  | b :: rest =>
      match do_store b s with
      | Returns _ s' _ => store_all rest s'
      | Faults _ _ => None
      end
  end.

(** The inventory vector that [fetch_blk_tx_hashes_impl] makes of a raw
    hash. *)
Definition transaction_vector (raw_tx_hash : list Z) : inventory_vector :=
  {| inv_type := inv_transaction; inv_hash := raw_tx_hash |}.

(** The calls of a continuation, among the events. *)
Definition is_handler (e : event) : bool :=
  match e with
  | handle_start _ | handle_store _ _ | handle_import _
  | handle_fetch_block_header _ _ | handle_fetch_block_transaction_hashes _ _
  | handle_fetch_block_depth _ _ | handle_fetch_last_depth _ _
  | handle_fetch_transaction _ _ | handle_fetch_transaction_index _ _ _
  | handle_fetch_spend _ _ | handle_fetch_outputs _ _ => true
  | _ => false
  end.

(** The event is a call of the continuation that the operation was
    given. *)
Definition reports_to (op : operation) (e : event) : bool :=
  match op, e with
  | op_start _, handle_start _
  | op_store _, handle_store _ _
  | op_import _ _, handle_import _
  | op_fetch_block_header_by_depth _, handle_fetch_block_header _ _
  | op_fetch_block_header_by_hash _, handle_fetch_block_header _ _
  | op_fetch_block_transaction_hashes_by_depth _,
    handle_fetch_block_transaction_hashes _ _
  | op_fetch_block_transaction_hashes_by_hash _,
    handle_fetch_block_transaction_hashes _ _
  | op_fetch_block_depth _, handle_fetch_block_depth _ _
  | op_fetch_last_depth, handle_fetch_last_depth _ _
  | op_fetch_transaction _, handle_fetch_transaction _ _
  | op_fetch_transaction_index _, handle_fetch_transaction_index _ _ _
  | op_fetch_spend _, handle_fetch_spend _ _
  | op_fetch_outputs _, handle_fetch_outputs _ _ => true
  | _, _ => false
  end.

(** The error code a continuation is called with. *)
Definition report_code (e : event) : option error_code :=
  match e with
  | handle_start ec | handle_store ec _ | handle_import ec
  | handle_fetch_block_header ec _
  | handle_fetch_block_transaction_hashes ec _
  | handle_fetch_block_depth ec _ | handle_fetch_last_depth ec _
  | handle_fetch_transaction ec _ | handle_fetch_transaction_index ec _ _
  | handle_fetch_spend ec _ | handle_fetch_outputs ec _ => Some ec
  | _ => None
  end.

(** The continuation of a fetch is called with nothing in hand: the
    default-constructed block, transaction or input point, the empty
    list, or zero. *)
Definition empty_handed (e : event) : Prop :=
  match e with
  | handle_fetch_block_header _ b => b = default_block
  | handle_fetch_block_transaction_hashes _ l => l = []
  | handle_fetch_block_depth _ d => d = 0
  | handle_fetch_last_depth _ d => d = 0
  | handle_fetch_transaction _ tx => tx = default_transaction
  | handle_fetch_transaction_index _ d i => d = 0 /\ i = 0
  | handle_fetch_spend _ inpoint => inpoint = default_input_point
  | handle_fetch_outputs _ l => l = []
  | _ => False
  end.

(** The continuation was called once, by the operation it was given
    to, and with nothing in hand unless the code is success. *)
Definition reported_once (op : operation) (tr : list event) : Prop :=
  exists e ec,
    List.filter is_handler tr = [e] /\ reports_to op e = true
    /\ report_code e = Some ec
    /\ (ec <> success -> empty_handed e).

(** ** The states of the program *)

(** What a caller can do with a facade, and what the strand does with
    the closures it was handed.  The queued member functions ([start],
    [store], [import] and the fetches) only queue; the strand then runs
    the closure, on whatever the machine is like at that moment. *)
Inductive member `{Hashing} `{Serializer} : action unit -> Prop :=
| member_queue (op : operation) : member (queue op)
| member_fetch_outputs (a : payment_address) : member (fetch_outputs a)
| member_stop : member stop
| member_subscribe_reorganize (handle_reorganize : nat) :
    member (subscribe_reorganize handle_reorganize)
| member_exec (impl : leveldb_common) (h : host) (op : operation) :
    member (exec impl h op)
| member_run_next (impl : leveldb_common) (h : host) :
    member (run_next impl h).

(** The states a facade on the storage directory [t] goes through: it
    is constructed, and then member functions return. *)
Inductive reachable `{Hashing} `{Serializer} (t : tables)
    : leveldb_blockchain -> Prop :=
| reachable_new (counter : Z) : reachable t (new_leveldb_blockchain_in counter t)
| reachable_member (a : action unit) (s s' : leveldb_blockchain)
    (tr : list event) :
    reachable t s -> member a -> a s = Returns tt s' tr -> reachable t s'.

(** No collaborator of [do_store] is constructed. *)
Definition unwired (s : leveldb_blockchain) : Prop :=
  chain_ s = None /\ orphans_ s = None /\ organize_ s = None
  /\ env_ s = false.

(** ** bip38: the byte-level helpers of the key encryption

    From [src/wallet/bip38.cpp]: the partitions of the byte arrays, the
    flag byte, the version byte and the sign byte.  The scrypt, AES and
    curve operations of the library are not modelled. *)
Module bip38.

(** [bounds]: a half-open range of indexes. *)
Record bounds := { start : nat; end_ : nat }.

(** [slice(data, bounds)] of the library: the bytes in the range. *)
Definition slice (data : list Z) (b : bounds) : list Z :=
  take (end_ b - start b) (drop (start b) data).

Module at_.
Module private_key.
Definition prefix : bounds := {| start := 0; end_ := 2 |}.
Definition flags : bounds := {| start := 2; end_ := 3 |}.
Definition salt : bounds := {| start := 3; end_ := 7 |}.
Definition entropy : bounds := {| start := 7; end_ := 15 |}.
Definition part1 : bounds := {| start := 15; end_ := 23 |}.
Definition part2 : bounds := {| start := 23; end_ := 39 |}.
Definition checksum : bounds := {| start := 39; end_ := 43 |}.
Definition encrypted : bounds :=
  {| start := start entropy; end_ := end_ part2 |}.
Definition version : bounds :=
  {| start := start prefix; end_ := start prefix + 1 |}.
End private_key.

Module public_key.
Definition prefix : bounds := {| start := 0; end_ := 5 |}.
Definition flags : bounds := {| start := 5; end_ := 6 |}.
Definition salt : bounds := {| start := 6; end_ := 10 |}.
Definition entropy : bounds := {| start := 10; end_ := 18 |}.
Definition sign : bounds := {| start := 18; end_ := 19 |}.
Definition hash : bounds := {| start := 19; end_ := 51 |}.
Definition checksum : bounds := {| start := 51; end_ := 55 |}.
End public_key.

Module lot_token.
Definition prefix : bounds := {| start := 0; end_ := 8 |}.
Definition salt : bounds := {| start := 8; end_ := 12 |}.
Definition lot : bounds := {| start := 12; end_ := 16 |}.
Definition sign : bounds := {| start := 16; end_ := 17 |}.
Definition hash : bounds := {| start := 17; end_ := 49 |}.
Definition checksum : bounds := {| start := 49; end_ := 53 |}.
Definition entropy : bounds :=
  {| start := start salt; end_ := end_ lot |}.
End lot_token.

Module token.
Definition prefix : bounds := {| start := 0; end_ := 8 |}.
Definition entropy : bounds := {| start := 8; end_ := 16 |}.
Definition sign : bounds := {| start := 16; end_ := 17 |}.
Definition hash : bounds := {| start := 17; end_ := 49 |}.
Definition checksum : bounds := {| start := 49; end_ := 53 |}.
Definition salt : bounds := entropy.
End token.
End at_.

Module prefix.
Definition private_key : list Z := [1; 66].
Definition private_key_multiplied : list Z := [1; 67].
Definition public_key : list Z := [100; 59; 246; 168; 154].
Definition lot_token : list Z := [44; 233; 179; 225; 255; 57; 226; 81].
Definition token : list Z := [44; 233; 179; 225; 255; 57; 226; 83].
End prefix.

(** [enum flag_byte : uint8_t] *)
Module flag_byte.
Definition none : Z := 0.
Definition lot_sequence : Z := Z.shiftl 1 2.
Definition ec_compressed : Z := Z.shiftl 1 5.
Definition ec_non_multiplied_low : Z := Z.shiftl 1 6.
Definition ec_non_multiplied_high : Z := Z.shiftl 1 7.
Definition ec_non_multiplied : Z :=
    Z.lor ec_non_multiplied_low ec_non_multiplied_high.
End flag_byte.

(** [check_flag]: [None] when the assertion on the position fails. *)
Definition check_flag (key : list Z) (flags_position : bounds) (flag : Z)
    : option bool :=
  match key !! start flags_position with
  | Some byte => Some (negb (Z.land byte flag =? 0))
  | None => None
  end.

Definition generate_flag_byte (multiplied compressed lot_sequence : bool) : Z :=
  let byte := flag_byte.none in
  let byte := if lot_sequence then Z.lor byte flag_byte.lot_sequence else byte in
  let byte := if compressed then Z.lor byte flag_byte.ec_compressed else byte in
  let byte :=
    if negb multiplied then Z.lor byte flag_byte.ec_non_multiplied else byte in
  byte.

(** [new_flags(bool compressed)] *)
Definition new_flags (compressed : bool) : list Z :=
  [generate_flag_byte false compressed false].

(** [new_flags(const token& token, bool compressed)] *)
Definition new_flags_token (token : list Z) (compressed : bool) : list Z :=
  let lot := prefix.lot_token in
  let actual := slice token at_.token.prefix in
  let is_lot := bool_decide (take (length lot) actual = lot) in
  [generate_flag_byte true compressed is_lot].

(** [point_sign]: [None] when the buffer is empty. *)
Definition point_sign (byte : Z) (buffer : list Z) : option (list Z) :=
  match last buffer with
  | Some last_byte =>
      let last_byte_odd_flag := Z.land last_byte 1 in
      Some [Z.lxor byte last_byte_odd_flag]
  | None => None
  end.

Definition convert_version (version : Z) : Z :=
  if version =? 0 then 1
  else if version =? 1 then 0
  else version.

(** [read_version]: the first byte of the key, converted. *)
Definition read_version (key : list Z) : option Z :=
  match slice key at_.private_key.version with
  | prefix_version :: _ => Some (convert_version prefix_version)
  | [] => None
  end.

(** [versioned_prefix]: [None] where the source writes to the first
    byte of an empty prefix. *)
Definition versioned_prefix (address_version : Z) (prefix : list Z)
    : option (list Z) :=
  match prefix with
  | _ :: rest => Some (convert_version address_version :: rest)
  | [] => None
  end.

(** [to_big_endian] of the library on a 32-bit value. *)
Definition to_big_endian (n : Z) : list Z :=
  [Z.shiftr n 24 mod 256; Z.shiftr n 16 mod 256; Z.shiftr n 8 mod 256;
   n mod 256].

Definition max_sequence_bits : Z := 12.

(** The start of [create_token]: the check of lot and sequence against
    the two limits of the header, and the entropy made of the salt and
    of the combined lot and sequence.  The combination is
    [(lot << max_sequence_bits) || sequence], on 32 bits. *)
Definition lot_sequence (lot sequence : Z) : Z :=
  if negb (Z.shiftl lot max_sequence_bits mod 2 ^ 32 =? 0)
     || negb (sequence =? 0)
  then 1 else 0.

Definition create_token_entropy (max_token_lot max_token_sequence : Z)
    (salt : list Z) (lot sequence : Z) : option (list Z) :=
  if (max_token_lot <? lot) || (max_token_sequence <? sequence) then None
  else Some (salt ++ to_big_endian (lot_sequence lot sequence)).

(** The choice that [decrypt] of a private key makes from the flags. *)
Definition decrypt_multiplied (key : list Z) : option bool :=
  negb <$> check_flag key at_.private_key.flags flag_byte.ec_non_multiplied.

End bip38.

(** A host on which the third table does not open, and the facade after
    [start] on it. *)
Definition txs_fails_host : host :=
  {| lock := lock_free;
     db_opens := fun db_name => negb (String.eqb db_name "txs");
     address_read_fails := false |}.

Definition half_started : leveldb_blockchain :=
  state_after
    (do_start example_common txs_fails_host "db"
       (new_leveldb_blockchain empty_tables))
    (new_leveldb_blockchain empty_tables).

Definition genesis : block := example_block 1 null_hash [example_tx 7].

(** The started facade after genesis was imported at depth 0. *)
Definition imported : leveldb_blockchain :=
  state_after (do_import genesis 0 started) started.

(** The started facade after [stop]. *)
Definition stopped : leveldb_blockchain := state_after (stop started) started.

(** The facade of [wire] with its counter one short of a flush. *)
Definition before_flush_without_env : leveldb_blockchain :=
  {| disk := disk (wire started); strand := []; flock_ := true;
     db_blocks_l1 := true; db_blocks_hash_l1 := true; db_txs_l1 := true;
     db_spends_l1 := true; db_address_l1 := true;
     common_ := common_ (wire started); chain_ := chain_ (wire started);
     orphans_ := orphans_ (wire started);
     organize_ := organize_ (wire started);
     env_ := false; reorganize_subscriber_ := [];
     flush_counter := 1999; details := ∅; next_detail := 1%positive |}.

(** The 256 bytes, to settle a fact about every byte by running it. *)
Definition all_bytes : list Z := map Z.of_nat (seq 0 256).

(** A private key of 43 bytes with the prefix of [encrypt] for address
    version 0 and the flags of a compressed key. *)
Definition example_private_key : list Z :=
  [1; 66] ++ bip38.new_flags true ++ repeat 7 40.

(** ** start and stop *)

Ltac run_action :=
  unfold bind, emit, ret, modify, get_state, deref, raise, queue; simpl.

Lemma open_db_ok (h : host) (prefix db_name : string) (s : leveldb_blockchain) :
  db_opens h db_name = true ->
  open_db h prefix db_name s
  = Returns true (set_db db_name true s) [ev_db_open db_name true].
Proof. intros Hopen. unfold open_db. rewrite Hopen. reflexivity. Qed.

Lemma open_db_fail (h : host) (prefix db_name : string) (s : leveldb_blockchain) :
  db_opens h db_name = false ->
  open_db h prefix db_name s
  = Returns false s
      [ev_db_open db_name false; ev_log "Internal error opening database"].
Proof. intros Hopen. unfold open_db. rewrite Hopen. reflexivity. Qed.

(** The lock can only be seen to be held on a file that opens. *)
Lemma held_lock_file_opens (h : host) :
  lock_held_elsewhere h = true -> lock_file_opens h = true.
Proof.
  unfold lock_held_elsewhere, lock_file_opens.
  destruct (lock h); [discriminate|reflexivity|reflexivity].
Qed.

(** [initialize] throws when the lock file cannot be opened, after the
    touch and before anything else; it returns in every other case. *)
Lemma initialize_throws (impl : leveldb_common) (h : host) (prefix : string)
    (s : leveldb_blockchain) :
  lock_file_opens h = false ->
  initialize impl h prefix s
  = Faults interprocess_exception [ev_touch_file (lock_path prefix)].
Proof. intros Hopens. unfold initialize. run_action. rewrite Hopens. reflexivity. Qed.

Lemma initialize_returns (impl : leveldb_common) (h : host) (prefix : string)
    (s : leveldb_blockchain) :
  lock_file_opens h = true ->
  exists ok s' tr, initialize impl h prefix s = Returns ok s' tr.
Proof.
  intros Hopens. unfold initialize, open_db. run_action. rewrite Hopens. simpl.
  destruct (lock_held_elsewhere h); simpl; [eauto|].
  repeat (match goal with
          | |- context [db_opens h ?n] => destruct (db_opens h n); simpl
          end; eauto).
Qed.

(** The ways [do_start] goes, one by one; the proofs about [start] go
    through the cases of the host with this. *)
Ltac start_cases h :=
  unfold do_start, initialize, open_db; run_action;
  destruct (lock_file_opens h); simpl;
  [destruct (lock_held_elsewhere h); simpl;
   [|destruct (db_opens h "blocks"); simpl;
     [destruct (db_opens h "blocks_hash"); simpl;
      [destruct (db_opens h "txs"); simpl;
       [destruct (db_opens h "spends"); simpl;
        [destruct (db_opens h "address"); simpl|]|]|]|]]|].

(** When [initialize] succeeds, the five tables were opened, in the
    order of the source, after the lock was taken. *)
Lemma initialize_true (impl : leveldb_common) (h : host) (prefix : string)
    (s s' : leveldb_blockchain) (tr : list event) :
  initialize impl h prefix s = Returns true s' tr ->
  lock_file_opens h = true /\ lock_held_elsewhere h = false
  /\ tr = [ev_touch_file (lock_path prefix); ev_try_lock (lock_path prefix) true;
        ev_db_open "blocks" true; ev_db_open "blocks_hash" true;
        ev_db_open "txs" true; ev_db_open "spends" true;
        ev_db_open "address" true]
  /\ s' = set_common_ (Some impl)
            (set_db "address" true (set_db "spends" true (set_db "txs" true
              (set_db "blocks_hash" true (set_db "blocks" true
                (set_flock_ true s)))))).
Proof.
  unfold initialize, open_db. run_action.
  destruct (lock_file_opens h); simpl; [|discriminate].
  destruct (lock_held_elsewhere h); simpl; [discriminate|].
  repeat (match goal with
          | |- context [db_opens h ?n] => destruct (db_opens h n); simpl
          end; try discriminate).
  intros E. inversion E. repeat split; reflexivity.
Qed.

(** C7. When the lock of the directory is held by another process,
    [start] fails before any table is opened: the lock is tried once,
    no table is touched, the facade is unchanged and the start
    continuation receives the failure [operation_failed].  When the
    continuation is told success, the lock was taken and all five
    tables were opened before that, and the five handles are set. *)
Theorem start_locks_before_tables (impl : leveldb_common) (h : host)
    (prefix : string) (s : leveldb_blockchain) :
  (lock_held_elsewhere h = true ->
     do_start impl h prefix s
     = Returns tt s [ev_touch_file (lock_path prefix);
                     ev_try_lock (lock_path prefix) false;
                     handle_start operation_failed])
  /\ (forall s' tr,
        do_start impl h prefix s = Returns tt s' tr ->
        In (handle_start success) tr ->
        lock_held_elsewhere h = false
        /\ tr = [ev_touch_file (lock_path prefix);
                 ev_try_lock (lock_path prefix) true;
                 ev_db_open "blocks" true; ev_db_open "blocks_hash" true;
                 ev_db_open "txs" true; ev_db_open "spends" true;
                 ev_db_open "address" true; handle_start success]
        /\ flock_ s' = true
        /\ db_blocks_l1 s' = true /\ db_blocks_hash_l1 s' = true
        /\ db_txs_l1 s' = true /\ db_spends_l1 s' = true
        /\ db_address_l1 s' = true).
Proof.
  split.
  - intros Hheld. unfold do_start, initialize. run_action.
    rewrite (held_lock_file_opens h Hheld), Hheld. reflexivity.
  - intros s' tr Hrun Hin. unfold do_start in Hrun.
    destruct (lock_file_opens h) eqn:Hopens;
      [|unfold bind in Hrun;
        rewrite (initialize_throws impl h prefix s Hopens) in Hrun;
        discriminate Hrun].
    destruct (initialize_returns impl h prefix s Hopens)
      as (ok & s1 & tr1 & Hinit).
    unfold bind in Hrun. rewrite Hinit in Hrun.
    destruct ok; simpl in Hrun; inversion Hrun; subst; clear Hrun.
    + apply initialize_true in Hinit as (_ & Hfree & -> & ->).
      repeat split; trivial.
    + exfalso. apply in_app_or in Hin as [Hin|Hin].
      * clear -Hinit Hin. revert Hinit. unfold initialize, open_db. run_action.
        destruct (lock_file_opens h); simpl; [|discriminate].
        destruct (lock_held_elsewhere h); simpl.
        { intros E; inversion E; subst. simpl in Hin. intuition discriminate. }
        repeat (match goal with
                | |- context [db_opens h ?n] => destruct (db_opens h n); simpl
                end;
                try (intros E; inversion E; subst; simpl in Hin;
                     intuition discriminate)).
      * simpl in Hin. intuition discriminate.
Qed.

Lemma start_locks_before_tables_witness :
  do_start example_common locked_host "db" (new_leveldb_blockchain empty_tables)
  = Returns tt (new_leveldb_blockchain empty_tables)
      [ev_touch_file (lock_path "db"); ev_try_lock (lock_path "db") false;
       handle_start operation_failed]
  /\ db_blocks_l1 started = true /\ db_address_l1 started = true.
Proof.
  split.
  - apply (proj1 (start_locks_before_tables example_common locked_host "db"
                    (new_leveldb_blockchain empty_tables))).
    reflexivity.
  - assert (Hin : In (handle_start success)
             [ev_touch_file (lock_path "db"); ev_try_lock (lock_path "db") true;
              ev_db_open "blocks" true; ev_db_open "blocks_hash" true;
              ev_db_open "txs" true; ev_db_open "spends" true;
              ev_db_open "address" true; handle_start success]).
    { do 7 right. left. reflexivity. }
    destruct (proj2 (start_locks_before_tables example_common free_host "db"
                       (new_leveldb_blockchain empty_tables))
                started _ eq_refl Hin)
      as (_ & _ & _ & Hblocks & _ & _ & _ & Haddress).
    split; assumption.
Defined.

(** C8. [stop] fires every registered reorganize handler once, with
    [service_stopped], depth 0 and two empty block lists; after that the
    five table handles are released, and no handler stays registered. *)
Theorem stop_fires_subscribers_then_releases (s : leveldb_blockchain) :
  exists s',
    stop s
    = Returns tt s'
        (map (fun handler => ev_reorganize handler service_stopped 0 [] [])
             (reorganize_subscriber_ s)
         ++ [ev_db_release "blocks"; ev_db_release "blocks_hash";
             ev_db_release "txs"; ev_db_release "spends";
             ev_db_release "address"])
    /\ reorganize_subscriber_ s' = []
    /\ db_blocks_l1 s' = false /\ db_blocks_hash_l1 s' = false
    /\ db_txs_l1 s' = false /\ db_spends_l1 s' = false
    /\ db_address_l1 s' = false.
Proof.
  eexists. split.
  - unfold stop, subscriber_relay, reset_db, relay. run_action.
    rewrite map_map. reflexivity.
  - repeat split; reflexivity.
Qed.

(** ** fetch_outputs before the strand *)

(** C5. For an address that is not pay-to-pubkey-hash, [fetch_outputs]
    calls its handler at once with [unsupported_payment_type] and no
    output point; nothing is queued, no table is read and the facade is
    unchanged.  For a pay-to-pubkey-hash address the operation is
    queued, behind what the strand already holds, and the handler is
    not called yet. *)
Theorem fetch_outputs_rejects_before_queuing (a : payment_address)
    (s : leveldb_blockchain) :
  (addr_type a <> pubkey_hash ->
     fetch_outputs a s
     = Returns tt s [handle_fetch_outputs unsupported_payment_type []])
  /\ (addr_type a = pubkey_hash ->
     fetch_outputs a s
     = Returns tt (set_strand (strand s ++ [op_fetch_outputs a]) s) []).
Proof.
  unfold fetch_outputs. split; intros Ht.
  - destruct (decide (addr_type a = pubkey_hash)); [contradiction|reflexivity].
  - destruct (decide (addr_type a = pubkey_hash)); [reflexivity|contradiction].
Qed.

Lemma fetch_outputs_rejects_before_queuing_witness :
  fetch_outputs {| addr_type := script_hash; addr_version := 5;
                   addr_hash := [1; 2; 3] |} started
  = Returns tt started [handle_fetch_outputs unsupported_payment_type []]
  /\ strand (state_after
       (fetch_outputs {| addr_type := pubkey_hash; addr_version := 0;
                         addr_hash := [1; 2; 3] |} started) started)
     = [op_fetch_outputs {| addr_type := pubkey_hash; addr_version := 0;
                            addr_hash := [1; 2; 3] |}].
Proof.
  split.
  - apply (proj1 (fetch_outputs_rejects_before_queuing
                    {| addr_type := script_hash; addr_version := 5;
                       addr_hash := [1; 2; 3] |} started)).
    discriminate.
  - rewrite (proj2 (fetch_outputs_rejects_before_queuing
                      {| addr_type := pubkey_hash; addr_version := 0;
                         addr_hash := [1; 2; 3] |} started) eq_refl).
    reflexivity.
Defined.

(** ** The not-found sentinel of the depth lookups *)

Lemma do_fetch_block_depth_eq (common : leveldb_common) (s : leveldb_blockchain)
    (block_hash : hash_digest) :
  common_ s = Some common ->
  do_fetch_block_depth block_hash s
  = Returns tt s
      [if decide (uint32_wrap (fetch_block_depth common (disk s) block_hash)
                  = max_uint32)
       then handle_fetch_block_depth not_found 0
       else handle_fetch_block_depth success
              (uint32_wrap (fetch_block_depth common (disk s) block_hash))].
Proof.
  intros Hc. unfold do_fetch_block_depth. run_action. rewrite Hc. simpl.
  destruct (decide _); reflexivity.
Qed.

Lemma do_fetch_last_depth_eq (common : leveldb_common) (s : leveldb_blockchain) :
  common_ s = Some common ->
  do_fetch_last_depth s
  = Returns tt s
      [if decide (uint32_wrap (find_last_block_depth common (disk s))
                  = max_uint32)
       then handle_fetch_last_depth not_found 0
       else handle_fetch_last_depth success
              (uint32_wrap (find_last_block_depth common (disk s)))].
Proof.
  intros Hc. unfold do_fetch_last_depth. run_action. rewrite Hc. simpl.
  destruct (decide _); reflexivity.
Qed.

(** C10. The largest 32-bit value is the not-found sentinel of both
    depth lookups: when the table helper yields it, the handler gets
    [not_found] with depth 0; and whatever the helper yields, neither
    operation ever reports success with the depth 2^32 - 1. *)
Theorem depth_sentinel_is_not_found (common : leveldb_common)
    (s : leveldb_blockchain) (block_hash : hash_digest) :
  common_ s = Some common ->
  (uint32_wrap (fetch_block_depth common (disk s) block_hash) = 2 ^ 32 - 1 ->
     do_fetch_block_depth block_hash s
     = Returns tt s [handle_fetch_block_depth not_found 0])
  /\ (uint32_wrap (find_last_block_depth common (disk s)) = 2 ^ 32 - 1 ->
     do_fetch_last_depth s = Returns tt s [handle_fetch_last_depth not_found 0])
  /\ ~ In (handle_fetch_block_depth success (2 ^ 32 - 1))
          (trace_of (do_fetch_block_depth block_hash s))
  /\ ~ In (handle_fetch_last_depth success (2 ^ 32 - 1))
          (trace_of (do_fetch_last_depth s)).
Proof.
  intros Hc.
  rewrite (do_fetch_block_depth_eq common s block_hash Hc).
  rewrite (do_fetch_last_depth_eq common s Hc).
  change (2 ^ 32 - 1) with max_uint32.
  repeat split.
  - intros E. destruct (decide _); [reflexivity|contradiction].
  - intros E. destruct (decide _); [reflexivity|contradiction].
  - simpl. destruct (decide _) as [E|E]; intros [Hin|[]];
      inversion Hin; congruence.
  - simpl. destruct (decide _) as [E|E]; intros [Hin|[]];
      inversion Hin; congruence.
Qed.

Lemma depth_sentinel_is_not_found_witness :
  do_fetch_block_depth (example_hash 1) started
  = Returns tt started [handle_fetch_block_depth not_found 0]
  /\ do_fetch_last_depth started
     = Returns tt started [handle_fetch_last_depth not_found 0].
Proof.
  pose proof (depth_sentinel_is_not_found example_common started
                (example_hash 1) eq_refl) as (Hd & Hl & _).
  split; [apply Hd | apply Hl]; reflexivity.
Defined.

(** ** store *)

(** The branch of [do_store] for a hash that the chain keeper finds. *)
Lemma do_store_duplicate `{Hashing} (s : leveldb_blockchain)
    (chain : chain_keeper) (b : block) :
  chain_ s = Some chain ->
  find_index chain (disk s) (hash_block_header (header b)) <> -1 ->
  do_store b s
  = Returns tt
      (set_details (<[next_detail s := new_block_detail b]> (details s))
         (Pos.succ (next_detail s)) s)
      [handle_store duplicate
         {| status := confirmed;
            depth := find_index chain (disk s)
                       (hash_block_header (header b)) |}].
Proof.
  intros Hc Hne. unfold do_store, make_block_detail. run_action.
  rewrite Hc. simpl.
  destruct (decide _); [reflexivity|contradiction].
Qed.

(** [do_store] on a facade without a chain keeper: the first
    dereference faults, before any continuation is called. *)
Lemma do_store_null_chain `{Hashing} (s : leveldb_blockchain) (b : block) :
  chain_ s = None -> do_store b s = Faults null_dereference [].
Proof.
  intros Hc. unfold do_store, make_block_detail. run_action. rewrite Hc.
  reflexivity.
Qed.

(** C2, on the code as it stands.  [initialize] constructs neither the
    orphan pool nor the chain keeper nor the organizer, so on a facade
    that was started, [store] of any block dereferences a null
    [chain_]: it faults before its handler is called, instead of
    reporting an orphan that the organizer connects later. *)
Theorem store_on_started_facade_faults `{Hashing} (impl : leveldb_common)
    (h : host) (prefix : string) (t : tables) (s : leveldb_blockchain)
    (tr : list event) (b : block) :
  do_start impl h prefix (new_leveldb_blockchain t) = Returns tt s tr ->
  chain_ s = None /\ orphans_ s = None /\ organize_ s = None
  /\ do_store b s = Faults null_dereference [].
Proof.
  intros Hrun.
  assert (Hnull : chain_ s = None /\ orphans_ s = None /\ organize_ s = None).
  { revert Hrun. start_cases h;
      intros E; inversion E; subst; repeat split; reflexivity. }
  destruct Hnull as (Hc & Ho & Hg). repeat split; trivial.
  apply do_store_null_chain. exact Hc.
Qed.

Lemma store_on_started_facade_faults_witness :
  @do_store example_hashing (example_block 2 (example_hash 1) []) started
  = Faults null_dereference [].
Proof.
  apply (@store_on_started_facade_faults example_hashing example_common
           free_host "db" empty_tables started
           [ev_touch_file (lock_path "db"); ev_try_lock (lock_path "db") true;
            ev_db_open "blocks" true; ev_db_open "blocks_hash" true;
            ev_db_open "txs" true; ev_db_open "spends" true;
            ev_db_open "address" true; handle_start success]
           (example_block 2 (example_hash 1) [])).
  reflexivity.
Defined.

(** ** What no state of the program has *)

Lemma tx_hashes_loop_state (raw : list (list Z)) :
  forall (tx_hashes l : list inventory_vector) (s s' : leveldb_blockchain)
         (tr : list event),
    tx_hashes_loop raw tx_hashes s = Returns l s' tr -> s' = s /\ tr = [].
Proof.
  induction raw as [|r raw IH]; intros acc l s s' tr.
  - cbn. intros E. inversion E. auto.
  - cbn [tx_hashes_loop]. destruct (decide _); [apply IH|discriminate].
Qed.

Lemma fetch_blk_tx_hashes_impl_state {Index : Type}
    (fetch : tables -> Index -> option proto_block) (index : Index)
    (s s' : leveldb_blockchain) (tr : list event) :
  fetch_blk_tx_hashes_impl fetch index s = Returns tt s' tr -> s' = s.
Proof.
  unfold fetch_blk_tx_hashes_impl, bind, get_state, emit.
  destruct (fetch (disk s) index) as [pb|].
  - destruct (tx_hashes_loop _ _ s) as [l s1 tr1|] eqn:Hloop; [|discriminate].
    apply tx_hashes_loop_state in Hloop as [-> ->].
    intros E. inversion E. reflexivity.
  - intros E. inversion E. reflexivity.
Qed.

(** A fetch that returns leaves the facade as it found it. *)
Lemma fetch_keeps_state `{Hashing} `{Serializer} (impl : leveldb_common)
    (h : host) (op : operation) (s s' : leveldb_blockchain) (tr : list event) :
  is_fetch op = true ->
  exec impl h op s = Returns tt s' tr ->
  s' = s.
Proof.
  intros Hop. destruct op; try discriminate Hop; cbn [exec].
  - unfold fetch_block_header_by_depth, bind, deref, get_state, emit.
    destruct (common_ s); [|discriminate].
    destruct (fetch_block_header_impl _ _ _); intros E; inversion E; reflexivity.
  - unfold fetch_block_header_by_hash, bind, deref, get_state, emit.
    destruct (common_ s); [|discriminate].
    destruct (fetch_block_header_impl _ _ _); intros E; inversion E; reflexivity.
  - unfold do_fetch_block_transaction_hashes_by_depth, bind, deref.
    destruct (common_ s) as [common|]; [|discriminate].
    destruct (fetch_blk_tx_hashes_impl _ d s) as [[] s1 tr1|] eqn:Himpl;
      [|discriminate].
    apply fetch_blk_tx_hashes_impl_state in Himpl as ->.
    intros E. inversion E. reflexivity.
  - unfold do_fetch_block_transaction_hashes_by_hash, bind, deref.
    destruct (common_ s) as [common|]; [|discriminate].
    destruct (fetch_blk_tx_hashes_impl _ h0 s) as [[] s1 tr1|] eqn:Himpl;
      [|discriminate].
    apply fetch_blk_tx_hashes_impl_state in Himpl as ->.
    intros E. inversion E. reflexivity.
  - unfold do_fetch_block_depth, bind, deref, get_state, emit.
    destruct (common_ s); [|discriminate].
    destruct (decide _); intros E; inversion E; reflexivity.
  - unfold do_fetch_last_depth, bind, deref, get_state, emit.
    destruct (common_ s); [|discriminate].
    destruct (decide _); intros E; inversion E; reflexivity.
  - unfold do_fetch_transaction, bind, deref, get_state, emit.
    destruct (common_ s); [|discriminate].
    destruct (fetch_proto_transaction _ _ _); intros E; inversion E; reflexivity.
  - unfold do_fetch_transaction_index, bind, deref, get_state, emit.
    destruct (common_ s); [|discriminate].
    destruct (fetch_proto_transaction _ _ _); intros E; inversion E; reflexivity.
  - unfold do_fetch_spend, bind, deref, get_state, emit.
    destruct (common_ s); [|discriminate].
    destruct (fetch_spend _ _ _); intros E; inversion E; reflexivity.
  - unfold do_fetch_outputs, db_address_get, bind, emit, raise. cbv beta.
    destruct (db_address_l1 s); [|discriminate].
    destruct (address_read_fails h).
    + intros E. inversion E. reflexivity.
    + destruct (address (disk s) !! _) as [outpoints|].
      * destruct (decide _); [|discriminate].
        destruct (outpoints_loop _ _ _ _); try discriminate.
        intros E. inversion E. reflexivity.
      * intros E. inversion E. reflexivity.
Qed.

(** No closure that the strand runs constructs a collaborator of
    [do_store]. *)
Lemma exec_unwired `{Hashing} `{Serializer} (impl : leveldb_common) (h : host)
    (op : operation) (s s' : leveldb_blockchain) (tr : list event) :
  unwired s -> exec impl h op s = Returns tt s' tr -> unwired s'.
Proof.
  intros Hu. destruct (is_fetch op) eqn:Hfetch.
  - intros Hrun. apply fetch_keeps_state in Hrun as ->; trivial.
  - destruct Hu as (Hc & Ho & Hg & He).
    destruct op; try discriminate Hfetch; cbn [exec].
    + start_cases h; intros E; inversion E; subst; repeat split; assumption.
    + rewrite (do_store_null_chain s b Hc). discriminate.
    + unfold do_import, bind, deref, get_state, modify, emit.
      destruct (common_ s) as [common|]; [|discriminate].
      destruct (save_block common (disk s) d b) as [[] t'];
        intros E; inversion E; subst; repeat split; assumption.
Qed.

Lemma member_unwired `{Hashing} `{Serializer} (a : action unit)
    (s s' : leveldb_blockchain) (tr : list event) :
  member a -> unwired s -> a s = Returns tt s' tr -> unwired s'.
Proof.
  intros Ha Hu. destruct Ha.
  - unfold queue, modify. intros E. inversion E; subst. exact Hu.
  - unfold fetch_outputs, queue, modify, emit.
    destruct (decide _); intros E; inversion E; subst; exact Hu.
  - unfold stop, subscriber_relay, relay, reset_db. run_action.
    intros E. inversion E; subst. exact Hu.
  - unfold subscribe_reorganize, modify. intros E. inversion E; subst. exact Hu.
  - apply exec_unwired. exact Hu.
  - unfold run_next.
    destruct (strand s) as [|op rest];
      [intros E; inversion E; subst; exact Hu|].
    unfold bind, modify.
    destruct (exec impl h op (set_strand rest s)) as [[] s1 tr1|] eqn:Hrun;
      [|discriminate].
    intros E. inversion E; subst.
    eapply (exec_unwired impl h op (set_strand rest s)); [exact Hu|exact Hrun].
Qed.

(** A facade constructed after another one of the same process is a
    state of the program as well, and it has the counter of the
    earlier one. *)
Lemma next_facade_keeps_counter `{Hashing} `{Serializer}
    (earlier : leveldb_blockchain) (t : tables) :
  reachable t (next_leveldb_blockchain earlier t)
  /\ flush_counter (next_leveldb_blockchain earlier t) = flush_counter earlier.
Proof. split; [apply reachable_new|reflexivity]. Qed.

(** In every state of the program the chain keeper, the pool, the
    organizer and the environment are null: nothing constructs them. *)
Lemma reachable_unwired `{Hashing} `{Serializer} (t : tables)
    (s : leveldb_blockchain) :
  reachable t s -> unwired s.
Proof.
  induction 1 as [counter|a s s' tr Hs IH Ha Hrun].
  - repeat split.
  - apply (member_unwired a s s' tr); assumption.
Qed.

(** The facade that the commented-out lines would build is no state of
    the program. *)
Lemma wire_is_not_reachable `{Hashing} `{Serializer} (t : tables)
    (s : leveldb_blockchain) :
  ~ reachable t (wire s) /\ ~ reachable t (with_environment s).
Proof.
  split; intros Hs; apply reachable_unwired in Hs.
  - destruct Hs as (Hc & _). discriminate Hc.
  - destruct Hs as (_ & _ & _ & He). discriminate He.
Qed.

(** C3, on the code as it stands.  In every state of the program the
    chain keeper is null, so [store] of a block whose hash the tables
    hold at a depth [d] does not report a duplicate with [d]: it
    dereferences the null [chain_] and faults before its handler is
    called. *)
Theorem store_confirmed_faults `{Hashing} `{Serializer} (t : tables)
    (s : leveldb_blockchain) (b : block) (d : Z) :
  reachable t s ->
  blocks_hash (disk s) !! hash_block_header (header b) = Some d ->
  chain_ s = None
  /\ do_store b s = Faults null_dereference []
  /\ ~ In (handle_store duplicate {| status := confirmed; depth := d |})
          (trace_of (do_store b s)).
Proof.
  intros Hs _. destruct (reachable_unwired t s Hs) as (Hc & _).
  rewrite (do_store_null_chain s b Hc).
  split; [exact Hc|]. split; [reflexivity|]. intros [].
Qed.

(** The failing input: [start] on an empty directory, [import] of
    genesis at depth 0, then [store] of genesis. *)
Lemma store_confirmed_faults_witness :
  blocks_hash (disk imported) !! @hash_block_header example_hashing (header genesis)
  = Some 0
  /\ @do_store example_hashing genesis imported = Faults null_dereference [].
Proof.
  assert (Hconfirmed :
    blocks_hash (disk imported)
      !! @hash_block_header example_hashing (header genesis) = Some 0)
    by (vm_compute; reflexivity).
  split; [exact Hconfirmed|].
  apply (@store_confirmed_faults example_hashing example_serializer
           empty_tables imported genesis 0); [|exact Hconfirmed].
  apply (@reachable_member example_hashing example_serializer empty_tables
           (@exec example_hashing example_serializer example_common free_host
              (op_import genesis 0))
           started imported [handle_import success]).
  - apply (@reachable_member example_hashing example_serializer empty_tables
             (@exec example_hashing example_serializer example_common free_host
                (op_start "db"))
             (new_leveldb_blockchain empty_tables) started
             [ev_touch_file (lock_path "db"); ev_try_lock (lock_path "db") true;
              ev_db_open "blocks" true; ev_db_open "blocks_hash" true;
              ev_db_open "txs" true; ev_db_open "spends" true;
              ev_db_open "address" true; handle_start success]).
    + apply (@reachable_new example_hashing example_serializer empty_tables 0).
    + constructor.
    + reflexivity.
  - constructor.
  - reflexivity.
Defined.

(** ** The outpoint records of an address *)

Lemma outpoints_loop_records `{Serializer} (outpoints : list Z) (n : nat) :
  length outpoints = (n * outpoint_size)%nat ->
  forall (fuel k : nat) (assoc_outs : list output_point),
    (k <= n)%nat -> (n - k < fuel)%nat ->
    outpoints_loop fuel outpoints (k * outpoint_size) assoc_outs
    = loop_done
        (assoc_outs
         ++ map (fun j => decode_outpoint (record_at outpoints j))
                (seq k (n - k))).
Proof.
  change outpoint_size with 36%nat.
  intros Hlen fuel. induction fuel as [|fuel IH]; intros k acc Hk Hfuel.
  - lia.
  - cbn [outpoints_loop]. change outpoint_size with 36%nat.
    destruct (decide (k * 36 = length outpoints)%nat) as [E|E].
    + assert (k = n) by lia. subst k.
      rewrite Nat.sub_diag. simpl. rewrite app_nil_r. reflexivity.
    + assert (k < n)%nat by lia.
      destruct (decide (k * 36 + 36 <= length outpoints)%nat) as [_|Hpast];
        [|lia].
      replace (k * 36 + 36)%nat with (S k * 36)%nat by lia.
      rewrite IH by lia.
      replace (n - k)%nat with (S (n - S k)) by lia.
      cbn [seq map]. rewrite <- app_assoc. reflexivity.
Qed.

(** C9. A value of the address table whose length is not a multiple
    of 36 stops [do_fetch_outputs] at its assertion, and the handler is
    not called.  When the length is a multiple of 36, the loop ends
    within its fuel, reads only whole records inside the value, and the
    handler gets one output point for each record, in stored order. *)
Theorem fetch_outputs_reads_whole_records `{Serializer} (h : host)
    (a : payment_address) (s : leveldb_blockchain) (outpoints : list Z) :
  db_address_l1 s = true ->
  address_read_fails h = false ->
  address (disk s) !! (addr_version a :: write_short_hash (addr_hash a))
  = Some outpoints ->
  ((length outpoints mod 36 <> 0)%nat ->
     do_fetch_outputs h a s = Faults assertion_failure [ev_db_get "address"])
  /\ ((length outpoints mod 36 = 0)%nat ->
      do_fetch_outputs h a s
      = Returns tt s [ev_db_get "address";
                      handle_fetch_outputs success (stored_outpoints outpoints)]
      /\ length (stored_outpoints outpoints) = (length outpoints / 36)%nat
      /\ forall k, (k < length outpoints / 36)%nat ->
           (k * 36 + 36 <= length outpoints)%nat
           /\ length (record_at outpoints k) = 36%nat
           /\ stored_outpoints outpoints !! k
              = Some (decode_outpoint (record_at outpoints k))).
Proof.
  intros Hdb Hio Hget.
  assert (Hrun : do_fetch_outputs h a s
    = if decide (length outpoints mod outpoint_size = 0)%nat then
        match outpoints_loop (S (length outpoints)) outpoints 0 [] with
        | loop_done assoc_outs =>
            Returns tt s [ev_db_get "address";
                          handle_fetch_outputs success assoc_outs]
        | loop_read_past_end => Faults read_past_end [ev_db_get "address"]
        | loop_out_of_fuel => Faults out_of_fuel [ev_db_get "address"]
        end
      else Faults assertion_failure [ev_db_get "address"]).
  { unfold do_fetch_outputs, db_address_get, bind. cbv beta.
    rewrite Hdb, Hio, Hget.
    destruct (decide _); [|reflexivity].
    destruct (outpoints_loop _ _ _ _); reflexivity. }
  rewrite Hrun. clear Hrun. change outpoint_size with 36%nat. split; intros Hmod.
  - destruct (decide _); [contradiction|reflexivity].
  - destruct (decide _); [|contradiction].
    pose proof (Nat.div_mod (length outpoints) 36 ltac:(lia)) as Hdiv.
    rewrite Hmod, Nat.add_0_r in Hdiv.
    assert (Hlen : length outpoints = (length outpoints / 36 * 36)%nat) by lia.
    pose proof (outpoints_loop_records outpoints (length outpoints / 36) Hlen
                  (S (length outpoints)) 0 [] ltac:(lia) ltac:(lia)) as Hloop.
    change (0 * outpoint_size)%nat with 0%nat in Hloop.
    rewrite Nat.sub_0_r, app_nil_l in Hloop. rewrite Hloop.
    split; [reflexivity|]. split.
    + unfold stored_outpoints. change outpoint_size with 36%nat.
      rewrite length_map, length_seq. reflexivity.
    + intros k Hk. split; [lia|]. split.
      * unfold record_at. change outpoint_size with 36%nat.
        rewrite length_take, length_drop. lia.
      * unfold stored_outpoints. change outpoint_size with 36%nat.
        rewrite list_lookup_fmap. rewrite lookup_seq_lt by lia. reflexivity.
Qed.

Lemma fetch_outputs_reads_whole_records_witness :
  @do_fetch_outputs example_serializer free_host example_address with_outpoints
  = Returns tt with_outpoints
      [ev_db_get "address";
       handle_fetch_outputs success
         [{| op_hash := example_hash 7; op_index := 1 |};
          {| op_hash := example_hash 8; op_index := 258 |}]].
Proof.
  destruct (@fetch_outputs_reads_whole_records example_serializer free_host
              example_address with_outpoints two_outpoints
              eq_refl eq_refl eq_refl) as [_ Hok].
  destruct (Hok eq_refl) as [Hrun _].
  rewrite Hrun. reflexivity.
Defined.

(** ** One call of do_store, step by step *)

Lemma size_t_wrap_small (n : Z) : 0 <= n <= 2000 -> size_t_wrap n = n.
Proof.
  intros Hn. unfold size_t_wrap. apply Z.mod_small. split; [lia|].
  apply Z.le_lt_trans with 2000; [lia|reflexivity].
Qed.

Lemma pending_fresh `{Hashing} (heap : gmap positive block_detail) (n : positive)
    (bd : block_detail) (h : hash_digest) (p : orphans_pool) :
  ~ In n (pool p) ->
  pending (<[n := bd]> heap) h p = pending heap h p.
Proof.
  intros Hfresh. unfold pending.
  induction (pool p) as [|o l IH]; [reflexivity|].
  cbn [existsb]. rewrite IH by (intros Hin; apply Hfresh; right; exact Hin).
  rewrite lookup_total_insert_ne; [reflexivity|].
  intros ->. apply Hfresh. left. reflexivity.
Qed.

(** A block whose hash is pending is not added, and the pool is
    unchanged. *)
Lemma orphans_pool_add_pending `{Hashing} (s : leveldb_blockchain)
    (p : orphans_pool) (b : block) :
  ~ In (next_detail s) (pool p) ->
  pending (details s) (hash_block_header (header b)) p = true ->
  orphans_pool_add (stored_heap s b) (next_detail s) p = (false, p).
Proof.
  intros Hfresh Hpending. unfold orphans_pool_add, stored_heap.
  rewrite lookup_total_insert_eq. cbn [new_block_detail actual].
  rewrite pending_fresh by exact Hfresh. rewrite Hpending. reflexivity.
Qed.

#[local] Opaque orphans_pool_add size_t_wrap.

Lemma do_store_passed `{Hashing} (s : leveldb_blockchain) (chain : chain_keeper)
    (p : orphans_pool) (org : organizer) (b : block) :
  chain_ s = Some chain -> orphans_ s = Some p -> organize_ s = Some org ->
  find_index chain (disk s) (hash_block_header (header b)) = -1 ->
  do_store b s
  = if decide (size_t_wrap (flush_counter s + 1) = 2000) then
      if env_ s then
        Returns tt
          (stored_state s (fst (organizer_start org (store_view s p b))) 0)
          (stored_trace s p org b ++ [ev_txn_checkpoint])
      else Faults null_dereference (stored_trace s p org b)
    else
      Returns tt
        (stored_state s (fst (organizer_start org (store_view s p b)))
           (size_t_wrap (flush_counter s + 1)))
        (stored_trace s p org b).
Proof.
  intros Hc Ho Hg Hd. destruct s. simpl in Hc, Ho, Hg, Hd. subst.
  unfold stored_trace, store_view, stored_heap, stored_state.
  unfold do_store, make_block_detail, orphans_add, organize_start_call,
    txn_checkpoint, bind, deref, get_state, modify, emit, ret,
    set_details, set_orphans_, set_disk, set_reorganize_subscriber_,
    set_flush_counter.
  simpl. rewrite Hd.
  destruct (decide (-1 <> -1)) as [Hne|_]; [contradiction|]. simpl.
  destruct (orphans_pool_add _ _ p) as [added p'] eqn:Hadd.
  destruct added; simpl;
    destruct (organizer_start org _) as [v ntc] eqn:Hstart; simpl;
    destruct (decide (size_t_wrap _ = 2000)); simpl;
    try (destruct env_0; simpl);
    rewrite ?app_nil_r, <- ?app_assoc; simpl; reflexivity.
Qed.

(** C4, on the code as it stands.  When the hash of the block is
    pending in the pool and not confirmed, [do_store] calls its handler
    with (duplicate, orphan) and then goes on, for want of a [return]:
    the organizer is started, the handler is called a second time and
    the flush counter is advanced. *)
Theorem store_pending_orphan_goes_on `{Hashing} (s : leveldb_blockchain)
    (chain : chain_keeper) (p : orphans_pool) (org : organizer) (b : block) :
  chain_ s = Some chain -> orphans_ s = Some p -> organize_ s = Some org ->
  ~ In (next_detail s) (pool p) ->
  find_index chain (disk s) (hash_block_header (header b)) = -1 ->
  pending (details s) (hash_block_header (header b)) p = true ->
  flush_counter s + 1 <> 2000 ->
  0 <= flush_counter s < 2000 ->
  exists s' ntc ec i,
    do_store b s
    = Returns tt s'
        (handle_store duplicate {| status := orphan; depth := 0 |}
         :: ev_organize :: map fire ntc ++ [handle_store ec i])
    /\ flush_counter s' = flush_counter s + 1.
Proof.
  intros Hc Ho Hg Hfresh Hd Hpending Hne Hrange.
  rewrite (do_store_passed s chain p org b Hc Ho Hg Hd).
  rewrite size_t_wrap_small by lia.
  destruct (decide (flush_counter s + 1 = 2000)); [contradiction|].
  unfold stored_trace.
  rewrite (orphans_pool_add_pending s p b Hfresh Hpending). cbn [fst app].
  do 4 eexists. split; reflexivity.
Qed.

Lemma store_pending_orphan_goes_on_witness :
  exists s',
    @do_store example_hashing (example_block 3 (example_hash 2) []) with_orphan
    = Returns tt s'
        [handle_store duplicate {| status := orphan; depth := 0 |};
         ev_organize;
         handle_store success {| status := orphan; depth := 0 |}]
    /\ flush_counter s' = 2.
Proof.
  destruct (@store_pending_orphan_goes_on example_hashing with_orphan
              spec_chain_keeper {| capacity := 20; pool := [1%positive] |}
              (@spec_organizer example_hashing example_serializer)
              (example_block 3 (example_hash 2) []))
    as (s' & ntc & ec & i & Hrun & Hcounter).
  - reflexivity.
  - reflexivity.
  - reflexivity.
  - vm_compute. intros [E|[]]. discriminate.
  - reflexivity.
  - reflexivity.
  - assert (E : flush_counter with_orphan = 1) by (vm_compute; reflexivity).
    rewrite E. lia.
  - assert (E : flush_counter with_orphan = 1) by (vm_compute; reflexivity).
    rewrite E. lia.
  - exists s'. rewrite Hcounter. split; [|vm_compute; reflexivity].
    rewrite Hrun. f_equal.
    assert (Htrace : trace_of (@do_store example_hashing
                       (example_block 3 (example_hash 2) []) with_orphan)
              = [handle_store duplicate {| status := orphan; depth := 0 |};
                 ev_organize;
                 handle_store success {| status := orphan; depth := 0 |}])
      by (vm_compute; reflexivity).
    rewrite Hrun in Htrace. exact Htrace.
Defined.

(** ** The flush counter over a sequence of store calls *)

Lemma is_checkpoint_stored_trace `{Hashing} (s : leveldb_blockchain)
    (p : orphans_pool) (org : organizer) (b : block) :
  existsb is_checkpoint (stored_trace s p org b) = false.
Proof.
  unfold stored_trace. rewrite existsb_app. cbn [existsb is_checkpoint].
  rewrite existsb_app. cbn [existsb is_checkpoint].
  rewrite !orb_false_r.
  assert (Hfire : forall l, existsb is_checkpoint (map fire l) = false).
  { induction l as [|n l IH]; [reflexivity|]. cbn. exact IH. }
  rewrite Hfire, orb_false_r.
  destruct (fst _); reflexivity.
Qed.

(** One call on a wired facade returns, keeps the facade wired, and
    moves the counter as the source says. *)
Lemma do_store_counter `{Hashing} (s : leveldb_blockchain) (b : block) :
  wired s -> 0 <= flush_counter s < 2000 ->
  let st := {| pre := s; stored := b; result := do_store b s |} in
  exists s' tr,
    do_store b s = Returns tt s' tr
    /\ wired s'
    /\ 0 <= flush_counter s' < 2000
    /\ (flushed st = true
        <-> passed st = true /\ flush_counter s + 1 = 2000)
    /\ (flush_counter s' - (flush_counter s + (if passed st then 1 else 0)))
         mod 2000 = 0.
Proof.
  intros (Hc & Ho & Hg & Henv) Hrange st.
  destruct Hc as [chain Hc], Ho as [p Ho], Hg as [org Hg].
  unfold st, flushed, passed. cbn [pre stored result]. rewrite Hc.
  destruct (decide (find_index chain (disk s) (hash_block_header (header b))
                    = -1)) as [Hd|Hd].
  - rewrite bool_decide_eq_true_2 by exact Hd.
    rewrite (do_store_passed s chain p org b Hc Ho Hg Hd).
    rewrite size_t_wrap_small by lia. rewrite Henv.
    destruct (decide (flush_counter s + 1 = 2000)) as [E|E].
    + do 2 eexists. split; [reflexivity|].
      split; [unfold wired, stored_state; cbn; rewrite Hc, Hg; eauto|].
      cbn [trace_of flush_counter stored_state].
      rewrite existsb_app, is_checkpoint_stored_trace. cbn.
      repeat split; try lia. rewrite E. reflexivity.
    + do 2 eexists. split; [reflexivity|].
      split; [unfold wired, stored_state; cbn; rewrite Hc, Hg; eauto|].
      cbn [trace_of flush_counter stored_state].
      rewrite is_checkpoint_stored_trace.
      repeat split; try lia; try discriminate;
        try (intros [_ ?]; contradiction).
      rewrite Z.sub_diag. reflexivity.
  - rewrite bool_decide_eq_false_2 by exact Hd.
    rewrite (do_store_duplicate s chain b Hc Hd).
    do 2 eexists. split; [reflexivity|].
    split; [unfold wired; cbn; rewrite Hc, Ho, Hg, Henv; eauto|]. cbn.
    repeat split; try lia; try discriminate;
      try (intros [? _]; discriminate).
    rewrite Z.add_0_r, Z.sub_diag. reflexivity.
Qed.

Lemma mod_2000_shift (a b n : Z) :
  (a - b) mod 2000 = 0 -> ((b + n) mod 2000 = 0 <-> (a + n) mod 2000 = 0).
Proof.
  intros Hab. apply Z.mod_divide in Hab; [|lia]. destruct Hab as [q Hq].
  split; intros Hn; apply Z.mod_divide in Hn; try lia; destruct Hn as [r Hr];
    apply Z.mod_divide; try lia.
  - exists (r + q). lia.
  - exists (r - q). lia.
Qed.

(** What the counter would do if the facade had its collaborators and
    an environment: over a run of store calls, the flush comes on the
    calls at which the number of calls that went past the
    confirmed-duplicate check reaches a multiple of 2000, whether their
    blocks were confirmed or stayed orphans. *)
Lemma store_run_flushes `{Hashing} (bs : list block) :
  forall s : leveldb_blockchain,
    wired s -> 0 <= flush_counter s < 2000 ->
    length (store_run bs s) = length bs
    /\ forall k st,
         store_run bs s !! k = Some st ->
         (exists s' tr, result st = Returns tt s' tr)
         /\ (flushed st = true
             <-> passed st = true
                 /\ (flush_counter s
                     + count_steps passed (take (S k) (store_run bs s)))
                      mod 2000 = 0).
Proof.
  induction bs as [|b rest IH]; intros s Hwired Hrange.
  - split; [reflexivity|]. intros k st Hk. destruct k; discriminate.
  - destruct (do_store_counter s b Hwired Hrange)
      as (s' & tr & Hrun & Hwired' & Hrange' & Hflush & Hmod).
    cbn [store_run]. cbv zeta. rewrite Hrun. rewrite <- Hrun.
    destruct (IH s' Hwired' Hrange') as [Hlen Hsteps].
    split; [cbn [length]; rewrite Hlen; reflexivity|].
    intros [|k] st Hk.
    + inversion Hk; subst st; clear Hk.
      split; [rewrite Hrun; eauto|].
      rewrite Hflush. cbn [take count_steps].
      destruct (passed _) eqn:Hpassed.
      * rewrite Z.add_0_r. split; intros [_ E]; split; trivial.
        -- rewrite E. reflexivity.
        -- destruct (decide (flush_counter s + 1 = 2000)) as [|Hne]; [trivial|].
           rewrite Z.mod_small in E by lia. lia.
      * split; intros [E _]; discriminate.
    + cbn [lookup list_lookup] in Hk.
      destruct (Hsteps k st Hk) as [Hret Hiff].
      split; [exact Hret|]. rewrite Hiff. cbn [take count_steps].
      rewrite Z.add_assoc.
      rewrite (mod_2000_shift _ _ (count_steps passed
                 (take (S k) (store_run rest s'))) Hmod).
      reflexivity.
Qed.

(** A call that goes past the first check on a facade whose pool or
    organizer is null faults, and not at a flush. *)
Lemma do_store_null_collaborator `{Hashing} (s : leveldb_blockchain)
    (chain : chain_keeper) (b : block) :
  chain_ s = Some chain ->
  find_index chain (disk s) (hash_block_header (header b)) = -1 ->
  orphans_ s = None \/ organize_ s = None ->
  exists tr,
    do_store b s = Faults null_dereference tr
    /\ existsb is_checkpoint tr = false.
Proof.
  intros Hc Hd Hnull. destruct s. simpl in Hc, Hd, Hnull. subst.
  unfold do_store, make_block_detail, orphans_add, organize_start_call,
    bind, deref, get_state, modify, emit, ret, set_details, set_orphans_.
  simpl. rewrite Hd.
  destruct (decide (-1 <> -1)) as [Hne|_]; [contradiction|]. simpl.
  destruct orphans_0 as [p|]; [|eexists; split; reflexivity].
  destruct Hnull as [Hnull|Hnull]; [discriminate|]. subst. simpl.
  destruct (orphans_pool_add _ _ p) as [[] p']; simpl;
    eexists; split; reflexivity.
Qed.

(** One call on a facade without an environment: no flush, no
    environment afterwards, and a fault when the flush is due. *)
Lemma do_store_without_env `{Hashing} (s : leveldb_blockchain) (b : block) :
  env_ s = false ->
  let st := {| pre := s; stored := b; result := do_store b s |} in
  flushed st = false
  /\ (forall s' tr, do_store b s = Returns tt s' tr -> env_ s' = false)
  /\ (passed st = true -> flush_counter s = 1999 ->
      returned (do_store b s) = false).
Proof.
  intros Henv st. unfold st, flushed, passed. cbn [pre stored result].
  destruct (chain_ s) as [chain|] eqn:Hc;
    [|rewrite (do_store_null_chain s b Hc);
      repeat split; intros; discriminate].
  destruct (decide (find_index chain (disk s) (hash_block_header (header b))
                    = -1)) as [Hd|Hd].
  - rewrite bool_decide_eq_true_2 by exact Hd.
    destruct (orphans_ s) as [p|] eqn:Ho;
      [destruct (organize_ s) as [org|] eqn:Hg|].
    + rewrite (do_store_passed s chain p org b Hc Ho Hg Hd). rewrite Henv.
      destruct (decide (size_t_wrap (flush_counter s + 1) = 2000)) as [E|E];
        cbn [trace_of returned]; rewrite is_checkpoint_stored_trace.
      * repeat split; intros; discriminate.
      * split; [reflexivity|]. split.
        -- intros s' tr Hrun. inversion Hrun; subst. exact Henv.
        -- intros _ Hcounter. exfalso. apply E. rewrite Hcounter.
           apply size_t_wrap_small. lia.
    + destruct (do_store_null_collaborator s chain b Hc Hd (or_intror Hg))
        as (tr & -> & Htr).
      cbn [trace_of returned]. rewrite Htr.
      repeat split; intros; discriminate.
    + destruct (do_store_null_collaborator s chain b Hc Hd (or_introl Ho))
        as (tr & -> & Htr).
      cbn [trace_of returned]. rewrite Htr.
      repeat split; intros; discriminate.
  - rewrite bool_decide_eq_false_2 by exact Hd.
    rewrite (do_store_duplicate s chain b Hc Hd). cbn.
    split; [reflexivity|]. split.
    + intros s' tr Hrun. inversion Hrun; subst. exact Henv.
    + discriminate.
Qed.

Lemma store_run_without_env `{Hashing} (bs : list block) :
  forall (s : leveldb_blockchain) (st : store_step),
    env_ s = false -> In st (store_run bs s) ->
    flushed st = false
    /\ (passed st = true -> flush_counter (pre st) = 1999 ->
        returned (result st) = false).
Proof.
  induction bs as [|b rest IH]; intros s st Henv Hin; [destruct Hin|].
  destruct (do_store_without_env s b Henv) as (Hflushed & Hnext & Hdue).
  cbn [store_run] in Hin. cbv zeta in Hin. destruct Hin as [<-|Hin].
  - split; [exact Hflushed|exact Hdue].
  - destruct (do_store b s) as [[] s' tr|f tr] eqn:Hrun; [|destruct Hin].
    apply (IH s' st); [apply (Hnext s' tr); reflexivity|exact Hin].
Qed.

(** C6, on the code as it stands.  No call of [store] ever forces a
    flush: the flush goes through [env_], which is null in every state
    of the program and which [do_store] does not assign.  Over any run
    of store calls on a facade without an environment, no call
    flushes, and the call at which the flush is due (it went past the
    confirmed-duplicate check with the counter at 1999) faults
    instead. *)
Theorem store_never_flushes `{Hashing} `{Serializer} :
  (forall t s, reachable t s -> env_ s = false)
  /\ (forall bs s st,
        env_ s = false -> In st (store_run bs s) ->
        flushed st = false
        /\ (passed st = true -> flush_counter (pre st) = 1999 ->
            returned (result st) = false)).
Proof.
  split.
  - intros t s Hs. apply (reachable_unwired t s Hs).
  - intros bs. apply store_run_without_env.
Qed.

Lemma store_never_flushes_witness :
  flushed {| pre := started; stored := example_child;
             result := @do_store example_hashing example_child started |}
  = false
  /\ returned (@do_store example_hashing example_child before_flush_without_env)
     = false.
Proof.
  split.
  - apply (proj2 (@store_never_flushes example_hashing example_serializer)
             [example_child] started).
    + reflexivity.
    + left. reflexivity.
  - apply (proj2 (@store_never_flushes example_hashing example_serializer)
             [example_child] before_flush_without_env
             {| pre := before_flush_without_env; stored := example_child;
                result := @do_store example_hashing example_child
                            before_flush_without_env |}).
    + reflexivity.
    + left. reflexivity.
    + vm_compute. reflexivity.
    + reflexivity.
Defined.

(** The run that the claim is about, on the facade that the
    commented-out lines would build: 2000 blocks with an unknown
    parent.  Every call goes past the first check and none confirms a
    block; the first 1999 return, none flushes, and the 2000th, at
    which the flush is due, faults. *)
Lemma two_thousand_orphans_end_in_a_fault :
  (let run := @store_run example_hashing example_orphans (wire started) in
   (length run =? 2000)%nat
   && (count_steps (@passed example_hashing) run =? 2000)
   && (count_steps accepted run =? 0)
   && (count_steps flushed run =? 0)
   && (count_steps (fun st => returned (result st)) run =? 1999)
   && match run !! 1999%nat with
      | Some st => negb (returned (result st))
      | None => false
      end) = true.
Proof. vm_compute. reflexivity. Qed.

(** ** What the organizer leaves in the blocks table *)














(** ** Round trip of a stored block *)






(** ** The scenario of the specification, with the commented-out lines *)

(** With the pool, the chain keeper and the organizer of the
    specification in place, as the commented-out lines of [initialize]
    would put them: genesis is confirmed at depth 0, a block
    with an unknown parent is reported as an orphan, and when its
    parent arrives the parent is confirmed at depth 1 and the orphan
    behind it at depth 2. *)
Lemma wired_store_connects_orphans :
  map (fun st => trace_of (result st))
      (@store_run example_hashing example_run_blocks (wire started))
  = [[ev_organize; handle_store success {| status := confirmed; depth := 0 |}];
     [ev_organize; handle_store success {| status := orphan; depth := 0 |}];
     [ev_organize; handle_store success {| status := confirmed; depth := 1 |}]]
  /\ (forall st,
        last (@store_run example_hashing example_run_blocks (wire started))
        = Some st ->
        blocks_hash (disk (state_after (result st) (pre st))) !! example_hash 3
        = Some 2).
Proof.
  split; [vm_compute; reflexivity|].
  intros st Hst.
  assert (Hcheck :
    match last (@store_run example_hashing example_run_blocks (wire started))
    with
    | Some st' =>
        bool_decide
          (blocks_hash (disk (state_after (result st') (pre st')))
             !! example_hash 3 = Some 2)
    | None => false
    end = true) by (vm_compute; reflexivity).
  rewrite Hst in Hcheck. apply bool_decide_eq_true in Hcheck. exact Hcheck.
Qed.

(** ** start: one report, and what a failure leaves behind *)

(** X1. The closure of [start] ends in one of two ways.  When the
    lock file cannot be opened it throws, after the touch and before
    the lock is tried: no table is opened and the handler is not
    called.  In every other case it returns and calls its handler
    exactly once, as its last step: with success exactly when the lock
    was free and each of the five tables opened, and with
    [operation_failed] otherwise. *)
Theorem start_reports_once (impl : leveldb_common) (h : host) (prefix : string)
    (s : leveldb_blockchain) :
  (lock_file_opens h = false ->
     do_start impl h prefix s
     = Faults interprocess_exception [ev_touch_file (lock_path prefix)])
  /\ (lock_file_opens h = true ->
      exists s' tr ec,
        do_start impl h prefix s = Returns tt s' tr
        /\ last tr = Some (handle_start ec)
        /\ List.filter is_handler tr = [handle_start ec]
        /\ (ec = success
            <-> lock_held_elsewhere h = false
                /\ db_opens h "blocks" = true
                /\ db_opens h "blocks_hash" = true
                /\ db_opens h "txs" = true /\ db_opens h "spends" = true
                /\ db_opens h "address" = true)
        /\ (ec = success \/ ec = operation_failed)).
Proof.
  split; intros Hopens.
  - unfold do_start, bind. rewrite (initialize_throws impl h prefix s Hopens).
    reflexivity.
  - unfold do_start, initialize, open_db. run_action. rewrite Hopens. simpl.
    destruct (lock_held_elsewhere h); simpl.
    { do 3 eexists. split; [reflexivity|]. split; [reflexivity|].
      split; [reflexivity|]. split; [|right; reflexivity].
      split; [discriminate|]. intros [E _]. discriminate. }
    destruct (db_opens h "blocks"); simpl;
      [destruct (db_opens h "blocks_hash"); simpl;
       [destruct (db_opens h "txs"); simpl;
        [destruct (db_opens h "spends"); simpl;
         [destruct (db_opens h "address"); simpl|]|]|]|];
      do 3 eexists; (split; [reflexivity|]); (split; [reflexivity|]);
      (split; [reflexivity|]);
      (split; [|first [left; reflexivity | right; reflexivity]]);
      (split; [try discriminate; intros _; repeat split
              | intros (_ & E1 & E2 & E3 & E4 & E5);
                first [reflexivity | discriminate]]).
Qed.

Lemma start_reports_once_witness :
  do_start example_common closed_host "db" (new_leveldb_blockchain empty_tables)
  = Faults interprocess_exception [ev_touch_file (lock_path "db")].
Proof.
  apply (proj1 (start_reports_once example_common closed_host "db"
                  (new_leveldb_blockchain empty_tables))).
  reflexivity.
Defined.

(** X2. When the lock was taken and a table then fails to open,
    nothing is rolled back: the lock stays held, every table that did
    open stays open, none is released, and the table helper [common_]
    is not constructed. *)
Theorem failed_start_keeps_lock_and_tables (impl : leveldb_common) (h : host)
    (prefix : string) (s s' : leveldb_blockchain) (tr : list event) :
  lock_held_elsewhere h = false ->
  do_start impl h prefix s = Returns tt s' tr ->
  In (handle_start operation_failed) tr ->
  flock_ s' = true
  /\ common_ s' = common_ s
  /\ (forall db_name,
        In (ev_db_open db_name true) tr -> db_handle db_name s' = true)
  /\ (forall db_name, ~ In (ev_db_release db_name) tr).
Proof.
  intros Hfree. unfold do_start, initialize, open_db. run_action.
  destruct (lock_file_opens h); simpl; [|discriminate].
  rewrite Hfree. simpl.
  destruct (db_opens h "blocks"); simpl;
    [destruct (db_opens h "blocks_hash"); simpl;
     [destruct (db_opens h "txs"); simpl;
      [destruct (db_opens h "spends"); simpl;
       [destruct (db_opens h "address"); simpl|]|]|]|];
    intros E Hfailed; inversion E; subst; clear E;
    try (simpl in Hfailed; exfalso;
         repeat (destruct Hfailed as [Hfailed|Hfailed]; try discriminate);
         exact Hfailed);
    (split; [reflexivity|]); (split; [reflexivity|]);
    (split;
      [ intros db_name Hin; simpl in Hin;
        repeat (destruct Hin as [Hin|Hin]; try discriminate;
                try (inversion Hin; subst; reflexivity));
        destruct Hin
      | intros db_name Hin; simpl in Hin;
        repeat (destruct Hin as [Hin|Hin]; try discriminate);
        exact Hin ]).
Qed.

Lemma failed_start_keeps_lock_and_tables_witness :
  flock_ half_started = true /\ db_handle "blocks_hash" half_started = true.
Proof.
  destruct (failed_start_keeps_lock_and_tables example_common txs_fails_host
              "db" (new_leveldb_blockchain empty_tables) half_started
              [ev_touch_file (lock_path "db");
               ev_try_lock (lock_path "db") true;
               ev_db_open "blocks" true; ev_db_open "blocks_hash" true;
               ev_db_open "txs" false;
               ev_log "Internal error opening database";
               handle_start operation_failed]
              eq_refl eq_refl)
    as (Hlock & _ & Hopen & _).
  - do 6 right. left. reflexivity.
  - split; [exact Hlock|]. apply Hopen. do 3 right. left. reflexivity.
Defined.

(** ** Operations on a facade that is not up *)

Lemma exec_on_null_members `{Hashing} `{Serializer} (impl : leveldb_common)
    (h : host) (op : operation) (s : leveldb_blockchain) :
  common_ s = None -> chain_ s = None -> db_address_l1 s = false ->
  is_start op = false ->
  exec impl h op s = Faults null_dereference [].
Proof.
  intros Hcommon Hchain Haddress Hop.
  destruct op; try discriminate Hop; cbn [exec].
  - unfold do_store, make_block_detail. run_action. rewrite Hchain. reflexivity.
  - unfold do_import. run_action. rewrite Hcommon. reflexivity.
  - unfold fetch_block_header_by_depth. run_action. rewrite Hcommon. reflexivity.
  - unfold fetch_block_header_by_hash. run_action. rewrite Hcommon. reflexivity.
  - unfold do_fetch_block_transaction_hashes_by_depth. run_action.
    rewrite Hcommon. reflexivity.
  - unfold do_fetch_block_transaction_hashes_by_hash. run_action.
    rewrite Hcommon. reflexivity.
  - unfold do_fetch_block_depth. run_action. rewrite Hcommon. reflexivity.
  - unfold do_fetch_last_depth. run_action. rewrite Hcommon. reflexivity.
  - unfold do_fetch_transaction. run_action. rewrite Hcommon. reflexivity.
  - unfold do_fetch_transaction_index. run_action. rewrite Hcommon.
    reflexivity.
  - unfold do_fetch_spend. run_action. rewrite Hcommon. reflexivity.
  - unfold do_fetch_outputs, db_address_get, bind. rewrite Haddress. reflexivity.
Qed.

(** X3. On a facade that was constructed and not started, and on one
    whose [start] reported a failure, every operation other than
    [start] that the strand runs ([store], [import] and the ten
    fetches) dereferences a null member: it faults before its handler
    is called. *)
Theorem operations_fault_unless_started `{Hashing} `{Serializer}
    (impl impl' : leveldb_common) (h h' : host) (prefix : string) (t : tables)
    (op : operation) :
  is_start op = false ->
  exec impl' h' op (new_leveldb_blockchain t) = Faults null_dereference []
  /\ forall s tr,
       do_start impl h prefix (new_leveldb_blockchain t) = Returns tt s tr ->
       In (handle_start operation_failed) tr ->
       exec impl' h' op s = Faults null_dereference [].
Proof.
  intros Hop. split.
  - apply exec_on_null_members; trivial.
  - intros s tr Hrun Hfailed.
    assert (Hnull : common_ s = None /\ chain_ s = None
                    /\ db_address_l1 s = false).
    { revert Hrun Hfailed. start_cases h;
        intros E Hfailed; inversion E; subst; clear E;
        try (repeat split; reflexivity).
      exfalso. simpl in Hfailed.
      repeat (destruct Hfailed as [Hfailed|Hfailed]; try discriminate).
      exact Hfailed. }
    destruct Hnull as (Hcommon & Hchain & Haddress).
    apply exec_on_null_members; trivial.
Qed.

Lemma operations_fault_unless_started_witness :
  @exec example_hashing example_serializer example_common free_host
    (op_fetch_block_depth (example_hash 1)) (new_leveldb_blockchain empty_tables)
  = Faults null_dereference []
  /\ @exec example_hashing example_serializer example_common free_host
       op_fetch_last_depth half_started
     = Faults null_dereference [].
Proof.
  split.
  - apply (@operations_fault_unless_started example_hashing example_serializer
             example_common example_common free_host free_host "db"
             empty_tables (op_fetch_block_depth (example_hash 1))).
    reflexivity.
  - apply (proj2 (@operations_fault_unless_started example_hashing
                    example_serializer example_common example_common
                    txs_fails_host free_host "db" empty_tables
                    op_fetch_last_depth eq_refl)
             half_started
             [ev_touch_file (lock_path "db");
              ev_try_lock (lock_path "db") true;
              ev_db_open "blocks" true; ev_db_open "blocks_hash" true;
              ev_db_open "txs" false;
              ev_log "Internal error opening database";
              handle_start operation_failed]).
    + reflexivity.
    + do 6 right. left. reflexivity.
Defined.

(** X4. [stop] resets the five table handles and nothing else: the
    strand keeps the operations that were queued, the lock stays held
    and [common_] still points at the released tables.  A
    [fetch_outputs] that runs after [stop] dereferences the released
    address table: it faults before its handler is called. *)
Theorem stop_leaves_operations_to_fault `{Serializer} (h : host)
    (a : payment_address) (s s' : leveldb_blockchain) (tr : list event) :
  stop s = Returns tt s' tr ->
  strand s' = strand s /\ flock_ s' = flock_ s /\ common_ s' = common_ s
  /\ do_fetch_outputs h a s' = Faults null_dereference [].
Proof.
  unfold stop, subscriber_relay, relay, reset_db. run_action.
  intros E. inversion E; subst; clear E.
  repeat split; try reflexivity.
Qed.

Lemma stop_leaves_operations_to_fault_witness :
  common_ stopped = common_ started
  /\ @do_fetch_outputs example_serializer free_host example_address stopped
     = Faults null_dereference [].
Proof.
  destruct (@stop_leaves_operations_to_fault example_serializer free_host
              example_address started stopped
              [ev_db_release "blocks"; ev_db_release "blocks_hash";
               ev_db_release "txs"; ev_db_release "spends";
               ev_db_release "address"] eq_refl)
    as (_ & _ & Hcommon & Hfault).
  split; assumption.
Defined.

(** ** fetch_outputs: misses, failures and the loop without its assertion *)

(** X5. With the address table open, [do_fetch_outputs] calls its
    handler once: with [not_found] when the key is absent, with
    [operation_failed] (and then a log line) when the read fails, and
    with success and no output point when the stored value is empty.
    The facade is unchanged in each case. *)
Theorem fetch_outputs_misses_and_failures `{Serializer} (h : host)
    (a : payment_address) (s : leveldb_blockchain) :
  db_address_l1 s = true ->
  (address_read_fails h = true ->
     do_fetch_outputs h a s
     = Returns tt s [ev_db_get "address";
                     handle_fetch_outputs operation_failed [];
                     ev_log "Error fetch_outputs"])
  /\ (address_read_fails h = false ->
      address (disk s) !! (addr_version a :: write_short_hash (addr_hash a))
      = None ->
      do_fetch_outputs h a s
      = Returns tt s [ev_db_get "address"; handle_fetch_outputs not_found []])
  /\ (address_read_fails h = false ->
      address (disk s) !! (addr_version a :: write_short_hash (addr_hash a))
      = Some [] ->
      do_fetch_outputs h a s
      = Returns tt s [ev_db_get "address"; handle_fetch_outputs success []]).
Proof.
  intros Hdb. unfold do_fetch_outputs, db_address_get, bind. cbv beta.
  rewrite Hdb. repeat split.
  - intros ->. reflexivity.
  - intros -> ->. reflexivity.
  - intros -> ->. reflexivity.
Qed.

Lemma fetch_outputs_misses_and_failures_witness :
  @do_fetch_outputs example_serializer free_host
    {| addr_type := pubkey_hash; addr_version := 5; addr_hash := [9] |}
    with_outpoints
  = Returns tt with_outpoints
      [ev_db_get "address"; handle_fetch_outputs not_found []].
Proof.
  destruct (@fetch_outputs_misses_and_failures example_serializer free_host
              {| addr_type := pubkey_hash; addr_version := 5; addr_hash := [9] |}
              with_outpoints eq_refl) as (_ & Hmiss & _).
  apply Hmiss; reflexivity.
Defined.

Lemma outpoints_loop_partial_record `{Serializer} (outpoints : list Z)
    (n r : nat) :
  length outpoints = (n * 36 + r)%nat -> (0 < r < 36)%nat ->
  forall (fuel k : nat) (assoc_outs : list output_point),
    (k <= n)%nat -> (n - k < fuel)%nat ->
    outpoints_loop fuel outpoints (k * 36) assoc_outs = loop_read_past_end.
Proof.
  intros Hlen Hr fuel. induction fuel as [|fuel IH]; intros k acc Hk Hfuel.
  - lia.
  - cbn [outpoints_loop]. change outpoint_size with 36%nat.
    destruct (decide (k * 36 = length outpoints)%nat) as [E|_]; [lia|].
    destruct (decide (k * 36 + 36 <= length outpoints)%nat) as [Hin|Hpast].
    + assert (k < n)%nat by lia.
      replace (k * 36 + 36)%nat with (S k * 36)%nat by lia.
      apply IH; lia.
    + reflexivity.
Qed.

(** X6. The loop of [do_fetch_outputs] on its own, whatever the value:
    given more fuel than the value has records, it never runs out of
    it; it ends normally exactly when the length is a multiple of 36,
    and otherwise it reads past the end of the value, because its test
    [it != end] steps over the end.  The assertion before the loop is
    what keeps the read inside the value. *)
Theorem outpoints_loop_stops_or_overruns `{Serializer} (outpoints : list Z)
    (fuel : nat) :
  (length outpoints / 36 < fuel)%nat ->
  ((length outpoints mod 36 = 0)%nat ->
     outpoints_loop fuel outpoints 0 [] = loop_done (stored_outpoints outpoints))
  /\ ((length outpoints mod 36 <> 0)%nat ->
      outpoints_loop fuel outpoints 0 [] = loop_read_past_end).
Proof.
  intros Hfuel.
  pose proof (Nat.div_mod (length outpoints) 36 ltac:(lia)) as Hdiv.
  pose proof (Nat.mod_upper_bound (length outpoints) 36 ltac:(lia)) as Hmod.
  split; intros Hr.
  - rewrite Hr, Nat.add_0_r in Hdiv.
    assert (Hlen : length outpoints
                   = (length outpoints / 36 * outpoint_size)%nat)
      by (change outpoint_size with 36%nat; lia).
    pose proof (outpoints_loop_records outpoints (length outpoints / 36) Hlen
                  fuel 0 [] ltac:(lia) ltac:(lia)) as Hloop.
    change (0 * outpoint_size)%nat with 0%nat in Hloop.
    rewrite Nat.sub_0_r, app_nil_l in Hloop. exact Hloop.
  - assert (Hlen : length outpoints
                   = (length outpoints / 36 * 36 + length outpoints mod 36)%nat)
      by lia.
    assert (Hpart : (0 < length outpoints mod 36 < 36)%nat) by lia.
    apply (outpoints_loop_partial_record outpoints (length outpoints / 36)
             (length outpoints mod 36) Hlen Hpart fuel 0 []);
      lia.
Qed.

Lemma outpoints_loop_stops_or_overruns_witness :
  @outpoints_loop example_serializer 3 (two_outpoints ++ [7]) 0 []
  = loop_read_past_end.
Proof.
  apply (proj2 (@outpoints_loop_stops_or_overruns example_serializer
                  (two_outpoints ++ [7]) 3 ltac:(vm_compute; lia))).
  vm_compute. discriminate.
Defined.

(** ** The transaction hashes of a stored block *)

Lemma tx_hashes_loop_sized (raw : list (list Z)) :
  Forall (fun raw_tx_hash => length raw_tx_hash = 32%nat) raw ->
  forall (tx_hashes : list inventory_vector) (s : leveldb_blockchain),
    tx_hashes_loop raw tx_hashes s
    = Returns (tx_hashes ++ map transaction_vector raw) s [].
Proof.
  induction 1 as [|r raw Hr Hraw IH]; intros acc s.
  - cbn. rewrite app_nil_r. reflexivity.
  - cbn [tx_hashes_loop map].
    destruct (decide _) as [_|Hsize]; [|contradiction].
    rewrite IH, <- app_assoc. reflexivity.
Qed.

Lemma tx_hashes_loop_missized (raw : list (list Z)) :
  ~ Forall (fun raw_tx_hash => length raw_tx_hash = 32%nat) raw ->
  forall (tx_hashes : list inventory_vector) (s : leveldb_blockchain),
    tx_hashes_loop raw tx_hashes s = Faults assertion_failure [].
Proof.
  induction raw as [|r raw IH]; intros Hbad acc s.
  - exfalso. apply Hbad. constructor.
  - cbn [tx_hashes_loop].
    destruct (decide (length r = 32%nat)) as [Hr|Hr]; [|reflexivity].
    apply IH. intros Hraw. apply Hbad. constructor; assumption.
Qed.

(** X7. [fetch_blk_tx_hashes_impl], for either kind of index and any
    stored block: a miss gives [not_found] with an empty list; a block
    whose raw hashes all have 32 bytes gives one inventory vector of
    type transaction for each raw hash, in order; and a raw hash of any
    other length stops at the assertion, the handler not being
    called. *)
Theorem fetch_blk_tx_hashes_sizes {Index : Type}
    (fetch : tables -> Index -> option proto_block) (index : Index)
    (s : leveldb_blockchain) :
  (fetch (disk s) index = None ->
     fetch_blk_tx_hashes_impl fetch index s
     = Returns tt s [handle_fetch_block_transaction_hashes not_found []])
  /\ (forall pb,
        fetch (disk s) index = Some pb ->
        Forall (fun raw_tx_hash => length raw_tx_hash = 32%nat)
               (pb_transactions pb) ->
        fetch_blk_tx_hashes_impl fetch index s
        = Returns tt s
            [handle_fetch_block_transaction_hashes success
               (map transaction_vector (pb_transactions pb))])
  /\ (forall pb,
        fetch (disk s) index = Some pb ->
        ~ Forall (fun raw_tx_hash => length raw_tx_hash = 32%nat)
                 (pb_transactions pb) ->
        fetch_blk_tx_hashes_impl fetch index s = Faults assertion_failure []).
Proof.
  unfold fetch_blk_tx_hashes_impl, bind, get_state, emit. repeat split.
  - intros ->. reflexivity.
  - intros pb -> Hsized. rewrite (tx_hashes_loop_sized _ Hsized). reflexivity.
  - intros pb -> Hbad. rewrite (tx_hashes_loop_missized _ Hbad). reflexivity.
Qed.

Lemma fetch_blk_tx_hashes_sizes_witness :
  fetch_blk_tx_hashes_impl (fetch_proto_block example_common) 1 with_child
  = Returns tt with_child
      [handle_fetch_block_transaction_hashes success
         [transaction_vector (example_hash 8)]].
Proof.
  destruct (fetch_blk_tx_hashes_sizes (fetch_proto_block example_common) 1
              with_child) as (_ & Hsized & _).
  apply (Hsized (@block_header_to_protobuf example_hashing example_child)).
  - vm_compute. reflexivity.
  - repeat constructor.
Defined.

(** ** Reads report once *)

Lemma tx_hashes_loop_outcome (raw : list (list Z)) :
  forall (tx_hashes : list inventory_vector) (s : leveldb_blockchain),
    (exists l, tx_hashes_loop raw tx_hashes s = Returns l s [])
    \/ tx_hashes_loop raw tx_hashes s = Faults assertion_failure [].
Proof.
  induction raw as [|r raw IH]; intros acc s.
  - left. eexists. reflexivity.
  - cbn [tx_hashes_loop]. destruct (decide _); [apply IH|right; reflexivity].
Qed.

Ltac report_once :=
  split; [reflexivity|]; do 2 eexists;
  split; [reflexivity|]; split; [reflexivity|]; split; [reflexivity|];
  first [ intros _; repeat split; reflexivity
        | intros Hne; exfalso; apply Hne; reflexivity ].

(** X8. Each of the ten fetch operations, on any facade: when it
    returns, it has called its own handler exactly once and no other,
    it has left the facade unchanged, and whenever the code it reports
    is not success the value it passes is the default one (an empty
    block, transaction or input point, an empty list, zero).  When it
    stops on a null member or on an assertion, no handler was
    called. *)
Theorem fetches_report_once `{Hashing} `{Serializer} (impl : leveldb_common)
    (h : host) (op : operation) (s : leveldb_blockchain) :
  is_fetch op = true ->
  match exec impl h op s with
  | Returns _ s' tr => s' = s /\ reported_once op tr
  | Faults _ tr => List.filter is_handler tr = []
  end.
Proof.
  intros Hop. unfold reported_once.
  destruct op; try discriminate Hop; cbn [exec].
  - unfold fetch_block_header_by_depth, bind, deref, get_state, emit.
    destruct (common_ s); [|reflexivity].
    destruct (fetch_block_header_impl _ _ _); report_once.
  - unfold fetch_block_header_by_hash, bind, deref, get_state, emit.
    destruct (common_ s); [|reflexivity].
    destruct (fetch_block_header_impl _ _ _); report_once.
  - unfold do_fetch_block_transaction_hashes_by_depth,
      fetch_blk_tx_hashes_impl, bind, deref, get_state, emit.
    destruct (common_ s) as [common|]; [|reflexivity].
    destruct (fetch_proto_block common (disk s) d) as [pb|]; [|report_once].
    destruct (tx_hashes_loop_outcome (pb_transactions pb) [] s)
      as [[l ->]| ->]; [report_once|reflexivity].
  - unfold do_fetch_block_transaction_hashes_by_hash,
      fetch_blk_tx_hashes_impl, bind, deref, get_state, emit.
    destruct (common_ s) as [common|]; [|reflexivity].
    destruct (fetch_proto_block_by_hash common (disk s) h0) as [pb|];
      [|report_once].
    destruct (tx_hashes_loop_outcome (pb_transactions pb) [] s)
      as [[l ->]| ->]; [report_once|reflexivity].
  - unfold do_fetch_block_depth, bind, deref, get_state, emit.
    destruct (common_ s); [|reflexivity].
    destruct (decide _); report_once.
  - unfold do_fetch_last_depth, bind, deref, get_state, emit.
    destruct (common_ s); [|reflexivity].
    destruct (decide _); report_once.
  - unfold do_fetch_transaction, bind, deref, get_state, emit.
    destruct (common_ s); [|reflexivity].
    destruct (fetch_proto_transaction _ _ _); report_once.
  - unfold do_fetch_transaction_index, bind, deref, get_state, emit.
    destruct (common_ s); [|reflexivity].
    destruct (fetch_proto_transaction _ _ _); report_once.
  - unfold do_fetch_spend, bind, deref, get_state, emit.
    destruct (common_ s); [|reflexivity].
    destruct (fetch_spend _ _ _); report_once.
  - unfold do_fetch_outputs, db_address_get, bind, emit, raise. cbv beta.
    destruct (db_address_l1 s); [|reflexivity].
    destruct (address_read_fails h); [report_once|].
    destruct (address (disk s) !! _) as [outpoints|]; [|report_once].
    destruct (decide _); [|reflexivity].
    destruct (outpoints_loop _ _ _ _); [report_once|reflexivity|reflexivity].
Qed.

(** The spend of the output that the transaction of genesis takes. *)
Lemma fetches_report_once_witness :
  reported_once
    (op_fetch_spend {| op_hash := example_hash 9; op_index := 0 |})
    (trace_of
       (@exec example_hashing example_serializer example_common free_host
          (op_fetch_spend {| op_hash := example_hash 9; op_index := 0 |})
          imported)).
Proof.
  pose proof (@fetches_report_once example_hashing example_serializer
                example_common free_host
                (op_fetch_spend {| op_hash := example_hash 9; op_index := 0 |})
                imported eq_refl) as Hreport.
  assert (Hreturned :
    returned (@exec example_hashing example_serializer example_common
                free_host
                (op_fetch_spend {| op_hash := example_hash 9; op_index := 0 |})
                imported) = true) by (vm_compute; reflexivity).
  destruct (@exec example_hashing example_serializer example_common free_host
              (op_fetch_spend {| op_hash := example_hash 9; op_index := 0 |})
              imported) as [[] s' tr|f tr]; [|discriminate Hreturned].
  exact (proj2 Hreport).
Defined.

(** ** store: one report for a new block, and the flush without an
    environment *)

#[local] Transparent orphans_pool_add.


#[local] Opaque orphans_pool_add.




(** X11. Neither the constructor nor [start] sets [env_], and the
    flush goes through it: on a facade whose other collaborators are
    set, the call that takes the counter to 2000 starts the organizer,
    calls its handler and then faults on the null [env_]. *)
Theorem flush_without_environment_faults `{Hashing} :
  (forall impl h prefix t s tr,
     do_start impl h prefix (new_leveldb_blockchain t) = Returns tt s tr ->
     env_ s = false)
  /\ (forall s chain p org b,
        chain_ s = Some chain -> orphans_ s = Some p ->
        organize_ s = Some org -> env_ s = false ->
        flush_counter s = 1999 ->
        find_index chain (disk s) (hash_block_header (header b)) = -1 ->
        exists tr ec i,
          do_store b s = Faults null_dereference tr
          /\ In ev_organize tr /\ In (handle_store ec i) tr
          /\ ~ In ev_txn_checkpoint tr).
Proof.
  split.
  - intros impl h prefix t s tr.
    start_cases h; intros E; inversion E; reflexivity.
  - intros s chain p org b Hc Ho Hg Henv Hcounter Hd.
    rewrite (do_store_passed s chain p org b Hc Ho Hg Hd).
    rewrite Hcounter, size_t_wrap_small by lia. rewrite Henv.
    destruct (decide (1999 + 1 = 2000)) as [_|Hne]; [|lia].
    do 3 eexists. split; [reflexivity|]. unfold stored_trace.
    split; [apply in_or_app; right; left; reflexivity|].
    split.
    + apply in_or_app. right. right. apply in_or_app. right. left. reflexivity.
    + intros Hin. apply in_app_or in Hin as [Hin|Hin].
      * destruct (fst _); [destruct Hin|].
        destruct Hin as [E|[]]. discriminate.
      * destruct Hin as [E|Hin]; [discriminate|].
        apply in_app_or in Hin as [Hin|Hin].
        -- apply in_map_iff in Hin as (n & E & _). discriminate.
        -- destruct Hin as [E|[]]. discriminate.
Qed.

Lemma flush_without_environment_faults_witness :
  returned (@do_store example_hashing example_child before_flush_without_env)
  = false.
Proof.
  destruct (proj2 (@flush_without_environment_faults example_hashing)
              before_flush_without_env spec_chain_keeper
              {| capacity := 20; pool := [] |}
              (@spec_organizer example_hashing example_serializer)
              example_child eq_refl eq_refl eq_refl eq_refl eq_refl)
    as (tr & ec & i & Hrun & _).
  - vm_compute. reflexivity.
  - rewrite Hrun. reflexivity.
Defined.

(** ** The flush counter after a run *)

(** X12. On a wired facade whose counter is below 2000, a run of
    store calls never faults, leaves the facade wired and the counter
    below 2000, and the counter ends at the number of calls that went
    past the confirmed-duplicate check, added to its first value,
    modulo 2000. *)
Theorem flush_counter_after_run `{Hashing} (bs : list block) :
  forall s : leveldb_blockchain,
    wired s -> 0 <= flush_counter s < 2000 ->
    exists s',
      store_all bs s = Some s'
      /\ wired s'
      /\ flush_counter s'
         = (flush_counter s + count_steps passed (store_run bs s)) mod 2000.
Proof.
  induction bs as [|b rest IH]; intros s Hwired Hrange.
  - exists s. split; [reflexivity|]. split; [exact Hwired|].
    cbn [store_run count_steps]. rewrite Z.add_0_r, Z.mod_small; lia.
  - destruct (do_store_counter s b Hwired Hrange)
      as (s1 & tr & Hrun & Hwired1 & Hrange1 & _ & Hmod).
    destruct (IH s1 Hwired1 Hrange1) as (s' & Hall & Hwired' & Hcounter).
    exists s'. cbn [store_all store_run]. cbv zeta. rewrite Hrun.
    split; [exact Hall|]. split; [exact Hwired'|].
    rewrite Hcounter. cbn [count_steps]. rewrite <- Hrun.
    apply Z.mod_divide in Hmod; [|lia]. destruct Hmod as [q Hq].
    replace (flush_counter s1 + count_steps passed (store_run rest s1))
      with (flush_counter s
            + ((if passed {| pre := s; stored := b; result := do_store b s |}
                then 1 else 0)
               + count_steps passed (store_run rest s1))
            + q * 2000) by lia.
    apply Z_mod_plus_full.
Qed.

Lemma flush_counter_after_run_witness :
  exists s',
    @store_all example_hashing example_run_blocks
      (with_environment (wire started)) = Some s'
    /\ flush_counter s' = 3.
Proof.
  destruct (@flush_counter_after_run example_hashing example_run_blocks
              (with_environment (wire started)))
    as (s' & Hall & _ & Hcounter).
  - unfold wired. cbn. eauto.
  - cbn. lia.
  - exists s'. split; [exact Hall|]. rewrite Hcounter.
    vm_compute. reflexivity.
Defined.

(** ** bip38: version, flags and sign bytes *)

Lemma byte_forall (P : Z -> bool) :
  forallb P all_bytes = true -> forall b, 0 <= b < 256 -> P b = true.
Proof.
  intros Hall b Hb. rewrite forallb_forall in Hall. apply Hall.
  unfold all_bytes. apply in_map_iff. exists (Z.to_nat b).
  split; [lia|]. apply in_seq. lia.
Qed.

Lemma convert_version_twice (version : Z) :
  bip38.convert_version (bip38.convert_version version) = version.
Proof.
  unfold bip38.convert_version.
  destruct (version =? 0) eqn:E0; [apply Z.eqb_eq in E0; subst; reflexivity|].
  destruct (version =? 1) eqn:E1; [apply Z.eqb_eq in E1; subst; reflexivity|].
  rewrite E0, E1. reflexivity.
Qed.

(** X13. [convert_version] maps both ways: applied twice it gives the
    version back, it exchanges 0 and 1 and leaves every other version
    alone. *)
Theorem convert_version_involutive (version : Z) :
  bip38.convert_version (bip38.convert_version version) = version
  /\ bip38.convert_version 0 = 1 /\ bip38.convert_version 1 = 0
  /\ (version <> 0 -> version <> 1 -> bip38.convert_version version = version).
Proof.
  split; [apply convert_version_twice|].
  unfold bip38.convert_version. repeat split.
  intros H0 H1. apply Z.eqb_neq in H0, H1. rewrite H0, H1. reflexivity.
Qed.

Lemma convert_version_involutive_witness :
  bip38.convert_version 5 = 5.
Proof.
  apply (proj2 (proj2 (proj2 (convert_version_involutive 5)))); lia.
Defined.

(** X14. The version byte that [versioned_prefix] writes is the one
    [read_version] reads back: for a key that starts with the versioned
    prefix, [read_version] gives the address version; the prefix keeps
    its length and every byte but the first. *)
Theorem read_version_of_versioned_prefix (address_version : Z)
    (prefix versioned rest : list Z) :
  bip38.versioned_prefix address_version prefix = Some versioned ->
  bip38.read_version (versioned ++ rest) = Some address_version
  /\ length versioned = length prefix
  /\ drop 1 versioned = drop 1 prefix.
Proof.
  unfold bip38.versioned_prefix. destruct prefix as [|p0 prefix]; [discriminate|].
  intros E. inversion E; subst; clear E.
  unfold bip38.read_version, bip38.slice. cbn.
  rewrite convert_version_twice. repeat split.
Qed.

Lemma read_version_of_versioned_prefix_witness :
  bip38.read_version example_private_key = Some 0.
Proof.
  apply (read_version_of_versioned_prefix 0 bip38.prefix.private_key [1; 66]
           (bip38.new_flags true ++ repeat 7 40) eq_refl).
Defined.

Lemma flag_byte_bits_read (multiplied compressed lot_sequence : bool)
    (key : list Z) :
  (key !! 2%nat
   = Some (bip38.generate_flag_byte multiplied compressed lot_sequence) ->
   bip38.check_flag key bip38.at_.private_key.flags bip38.flag_byte.lot_sequence
   = Some lot_sequence
   /\ bip38.check_flag key bip38.at_.private_key.flags
        bip38.flag_byte.ec_compressed
      = Some compressed
   /\ bip38.decrypt_multiplied key = Some multiplied)
  /\ (key !! 5%nat
      = Some (bip38.generate_flag_byte multiplied compressed lot_sequence) ->
      bip38.check_flag key bip38.at_.public_key.flags
        bip38.flag_byte.lot_sequence
      = Some lot_sequence
      /\ bip38.check_flag key bip38.at_.public_key.flags
           bip38.flag_byte.ec_compressed
         = Some compressed).
Proof.
  unfold bip38.decrypt_multiplied, bip38.check_flag.
  cbn [bip38.start bip38.at_.private_key.flags bip38.at_.public_key.flags].
  split; intros ->; destruct multiplied, compressed, lot_sequence;
    repeat split.
Qed.

(** X15. The flag byte that [generate_flag_byte] makes is read back
    by [check_flag]: at the flags position of a private key (index 2)
    or of a public key (index 5), the lot-sequence flag and the
    compression flag are the ones given, and [decrypt] takes the key
    for a multiplied one exactly when it was generated as such. *)
Theorem flag_byte_round_trip (multiplied compressed lot_sequence : bool)
    (key : list Z) :
  (key !! 2%nat
   = Some (bip38.generate_flag_byte multiplied compressed lot_sequence) ->
   bip38.check_flag key bip38.at_.private_key.flags bip38.flag_byte.lot_sequence
   = Some lot_sequence
   /\ bip38.check_flag key bip38.at_.private_key.flags
        bip38.flag_byte.ec_compressed
      = Some compressed
   /\ bip38.decrypt_multiplied key = Some multiplied)
  /\ (key !! 5%nat
      = Some (bip38.generate_flag_byte multiplied compressed lot_sequence) ->
      bip38.check_flag key bip38.at_.public_key.flags
        bip38.flag_byte.lot_sequence
      = Some lot_sequence
      /\ bip38.check_flag key bip38.at_.public_key.flags
           bip38.flag_byte.ec_compressed
         = Some compressed).
Proof.
  exact (flag_byte_bits_read multiplied compressed lot_sequence key).
Qed.

Lemma flag_byte_round_trip_witness :
  bip38.check_flag example_private_key bip38.at_.private_key.flags
    bip38.flag_byte.ec_compressed
  = Some true
  /\ bip38.decrypt_multiplied example_private_key = Some false.
Proof.
  destruct (proj1 (flag_byte_round_trip false true false example_private_key)
              eq_refl) as (_ & Hcompressed & Hmultiplied).
  split; assumption.
Defined.

(** X16. [generate_flag_byte] gives a byte in which only the bits 2,
    5, 6 and 7 can be set, and the two bits that mean "not multiplied"
    are always set together. *)
Theorem generate_flag_byte_bits (multiplied compressed lot_sequence : bool) :
  0 <= bip38.generate_flag_byte multiplied compressed lot_sequence < 256
  /\ Z.land (bip38.generate_flag_byte multiplied compressed lot_sequence) 27 = 0
  /\ Z.testbit (bip38.generate_flag_byte multiplied compressed lot_sequence) 6
     = negb multiplied
  /\ Z.testbit (bip38.generate_flag_byte multiplied compressed lot_sequence) 7
     = negb multiplied.
Proof.
  destruct multiplied, compressed, lot_sequence; repeat split;
    vm_compute; first [reflexivity | intros E; discriminate E].
Qed.

(** X17. [decrypt] looks at the two "not multiplied" bits with one
    mask: whatever the flag byte of the key, the key is decrypted as a
    multiplied one exactly when both bit 6 and bit 7 are clear, so a
    byte with only one of them set counts as not multiplied. *)
Theorem decrypt_multiplied_bits (key : list Z) (flags : Z) :
  0 <= flags < 256 ->
  key !! 2%nat = Some flags ->
  bip38.decrypt_multiplied key
  = Some (negb (Z.testbit flags 6 || Z.testbit flags 7)).
Proof.
  intros Hbyte Hkey. unfold bip38.decrypt_multiplied, bip38.check_flag.
  cbn [bip38.start bip38.at_.private_key.flags]. rewrite Hkey.
  cbn [fmap option_fmap option_map]. f_equal.
  pose proof (byte_forall
    (fun f => Bool.eqb (negb (negb (Z.land f bip38.flag_byte.ec_non_multiplied
                                    =? 0)))
                (negb (Z.testbit f 6 || Z.testbit f 7)))
    ltac:(vm_compute; reflexivity) flags Hbyte) as Hall.
  apply Bool.eqb_prop in Hall. exact Hall.
Qed.

Lemma decrypt_multiplied_bits_witness :
  bip38.decrypt_multiplied [1; 66; 64] = Some false.
Proof.
  apply (decrypt_multiplied_bits [1; 66; 64] 64 ltac:(lia) eq_refl).
Defined.

(** X18. [point_sign] undoes itself: the sign byte made from a byte
    and a buffer gives the byte back when it is signed with the same
    buffer, which is how the sign byte written by [create_public_key]
    is read by [decrypt]; the byte is changed exactly when the last
    byte of the buffer is odd, and an empty buffer fails the
    assertion. *)
Theorem point_sign_involutive (byte : Z) (buffer : list Z) (last_byte : Z) :
  last buffer = Some last_byte ->
  bip38.point_sign byte buffer = Some [Z.lxor byte (Z.land last_byte 1)]
  /\ bip38.point_sign (Z.lxor byte (Z.land last_byte 1)) buffer = Some [byte]
  /\ (Z.odd last_byte = false ->
      bip38.point_sign byte buffer = Some [byte])
  /\ bip38.point_sign byte [] = None.
Proof.
  intros Hlast. unfold bip38.point_sign. rewrite Hlast. repeat split.
  - rewrite Z.lxor_assoc, Z.lxor_nilpotent, Z.lxor_0_r. reflexivity.
  - intros Heven.
    assert (Hbit : Z.land last_byte 1 = 0).
    { apply Z.bits_inj'. intros n Hn. rewrite Z.land_spec, Z.bits_0.
      destruct (decide (n = 0)) as [->|Hne].
      - rewrite Z.bit0_odd, Heven. reflexivity.
      - replace (Z.testbit 1 n) with false; [apply andb_false_r|].
        symmetry. change 1 with (2 ^ 0). apply Z.pow2_bits_false. lia. }
    rewrite Hbit, Z.lxor_0_r. reflexivity.
Qed.

Lemma point_sign_involutive_witness :
  bip38.point_sign 2 [10; 11; 13] = Some [3]
  /\ bip38.point_sign 3 [10; 11; 13] = Some [2].
Proof.
  destruct (point_sign_involutive 2 [10; 11; 13] 13 eq_refl)
    as (Hsign & Hback & _).
  split; assumption.
Defined.

(** ** bip38: lot and sequence in the entropy of a token *)

Lemma lot_sequence_flag (lot sequence : Z) :
  0 <= lot < 2 ^ 20 -> 0 <= sequence ->
  bip38.lot_sequence lot sequence
  = if (lot =? 0) && (sequence =? 0) then 0 else 1.
Proof.
  intros Hlot Hseq. unfold bip38.lot_sequence, bip38.max_sequence_bits.
  rewrite Z.shiftl_mul_pow2 by lia.
  change (2 ^ 20) with 1048576 in Hlot. change (2 ^ 12) with 4096.
  rewrite Z.mod_small by (change (2 ^ 32) with 4294967296; lia).
  destruct (lot =? 0) eqn:E0.
  - apply Z.eqb_eq in E0. subst lot. cbn.
    destruct (sequence =? 0); reflexivity.
  - apply Z.eqb_neq in E0.
    replace (lot * 4096 =? 0) with false; [reflexivity|].
    symmetry. apply Z.eqb_neq. lia.
Qed.

(** X19. [create_token] joins lot and sequence with [||], not with a
    bitwise or: for a lot below 2^20 (the header's limit is at most
    that) the four bytes it appends to the salt are 0 0 0 1 for every
    lot and sequence except (0, 0), for which they are 0 0 0 0.  The
    entropy of a token therefore does not tell two lots or two
    sequences apart. *)
Theorem create_token_entropy_collapses (max_token_lot max_token_sequence : Z)
    (salt : list Z) (lot sequence : Z) (entropy : list Z) :
  max_token_lot < 2 ^ 20 -> 0 <= lot -> 0 <= sequence ->
  bip38.create_token_entropy max_token_lot max_token_sequence salt lot sequence
  = Some entropy ->
  entropy
  = salt ++ [0; 0; 0; if (lot =? 0) && (sequence =? 0) then 0 else 1].
Proof.
  intros Hmax Hlot Hseq. unfold bip38.create_token_entropy.
  destruct (max_token_lot <? lot) eqn:Eguard; [discriminate|].
  apply Z.ltb_ge in Eguard.
  destruct (max_token_sequence <? sequence); [discriminate|].
  cbn [orb]. intros E. inversion E; subst; clear E.
  rewrite lot_sequence_flag by lia.
  destruct ((lot =? 0) && (sequence =? 0)); reflexivity.
Qed.

Lemma create_token_entropy_collapses_witness :
  bip38.create_token_entropy 1048575 4095 [1; 2; 3; 4] 5 7
  = Some [1; 2; 3; 4; 0; 0; 0; 1]
  /\ bip38.create_token_entropy 1048575 4095 [1; 2; 3; 4] 900 3
     = Some [1; 2; 3; 4; 0; 0; 0; 1].
Proof.
  assert (Hfirst : exists e,
            bip38.create_token_entropy 1048575 4095 [1; 2; 3; 4] 5 7 = Some e)
    by (eexists; reflexivity).
  assert (Hsecond : exists e,
            bip38.create_token_entropy 1048575 4095 [1; 2; 3; 4] 900 3 = Some e)
    by (eexists; reflexivity).
  destruct Hfirst as [e1 H1], Hsecond as [e2 H2].
  rewrite H1, H2.
  rewrite (create_token_entropy_collapses 1048575 4095 [1; 2; 3; 4] 5 7 e1
             ltac:(reflexivity) ltac:(lia) ltac:(lia) H1).
  rewrite (create_token_entropy_collapses 1048575 4095 [1; 2; 3; 4] 900 3 e2
             ltac:(reflexivity) ltac:(lia) ltac:(lia) H2).
  split; reflexivity.
Defined.

(** ** bip38: the partitions of the byte arrays *)

Lemma slice_join (data : list Z) (a b c : nat) :
  (a <= b <= c)%nat ->
  bip38.slice data {| bip38.start := a; bip38.end_ := b |}
  ++ bip38.slice data {| bip38.start := b; bip38.end_ := c |}
  = bip38.slice data {| bip38.start := a; bip38.end_ := c |}.
Proof.
  intros Habc. unfold bip38.slice. cbn [bip38.start bip38.end_].
  replace (drop b data) with (drop (b - a) (drop a data))
    by (rewrite drop_drop; f_equal; lia).
  rewrite take_take_drop. f_equal. lia.
Qed.

Lemma slice_whole (data : list Z) (n : nat) :
  length data = n ->
  bip38.slice data {| bip38.start := 0; bip38.end_ := n |} = data.
Proof.
  intros <-. unfold bip38.slice. cbn [bip38.start bip38.end_].
  rewrite Nat.sub_0_r, drop_0. apply firstn_all.
Qed.

(** X20. The partitions tile the arrays: the slices of an encrypted
    private key (43 bytes), of an encrypted public key (55), of a token
    with lot (53) and of one without (53), taken in order, put the
    array together again, with no gap and no overlap; and the encrypted
    part of a private key is its entropy, part1 and part2, 32 bytes. *)
Theorem partitions_tile_the_arrays (key : list Z) :
  (length key = 43%nat ->
   bip38.slice key bip38.at_.private_key.prefix
   ++ bip38.slice key bip38.at_.private_key.flags
   ++ bip38.slice key bip38.at_.private_key.salt
   ++ bip38.slice key bip38.at_.private_key.entropy
   ++ bip38.slice key bip38.at_.private_key.part1
   ++ bip38.slice key bip38.at_.private_key.part2
   ++ bip38.slice key bip38.at_.private_key.checksum
   = key
   /\ bip38.slice key bip38.at_.private_key.encrypted
      = bip38.slice key bip38.at_.private_key.entropy
        ++ bip38.slice key bip38.at_.private_key.part1
        ++ bip38.slice key bip38.at_.private_key.part2
   /\ length (bip38.slice key bip38.at_.private_key.encrypted) = 32%nat)
  /\ (length key = 55%nat ->
      bip38.slice key bip38.at_.public_key.prefix
      ++ bip38.slice key bip38.at_.public_key.flags
      ++ bip38.slice key bip38.at_.public_key.salt
      ++ bip38.slice key bip38.at_.public_key.entropy
      ++ bip38.slice key bip38.at_.public_key.sign
      ++ bip38.slice key bip38.at_.public_key.hash
      ++ bip38.slice key bip38.at_.public_key.checksum
      = key)
  /\ (length key = 53%nat ->
      bip38.slice key bip38.at_.lot_token.prefix
      ++ bip38.slice key bip38.at_.lot_token.salt
      ++ bip38.slice key bip38.at_.lot_token.lot
      ++ bip38.slice key bip38.at_.lot_token.sign
      ++ bip38.slice key bip38.at_.lot_token.hash
      ++ bip38.slice key bip38.at_.lot_token.checksum
      = key
      /\ bip38.slice key bip38.at_.token.prefix
         ++ bip38.slice key bip38.at_.token.entropy
         ++ bip38.slice key bip38.at_.token.sign
         ++ bip38.slice key bip38.at_.token.hash
         ++ bip38.slice key bip38.at_.token.checksum
         = key).
Proof.
  split; [|split].
  - intros Hlen.
    change bip38.at_.private_key.encrypted
      with {| bip38.start := 7; bip38.end_ := 39 |}.
    unfold bip38.at_.private_key.prefix, bip38.at_.private_key.flags,
      bip38.at_.private_key.salt, bip38.at_.private_key.entropy,
      bip38.at_.private_key.part1, bip38.at_.private_key.part2,
      bip38.at_.private_key.checksum, bip38.at_.private_key.encrypted.
    cbn [bip38.start bip38.end_]. split; [|split].
    + repeat (rewrite slice_join by lia). apply slice_whole. exact Hlen.
    + repeat (rewrite slice_join by lia). reflexivity.
    + unfold bip38.slice. cbn [bip38.start bip38.end_].
      rewrite length_take, length_drop. lia.
  - intros Hlen.
    unfold bip38.at_.public_key.prefix, bip38.at_.public_key.flags,
      bip38.at_.public_key.salt, bip38.at_.public_key.entropy,
      bip38.at_.public_key.sign, bip38.at_.public_key.hash,
      bip38.at_.public_key.checksum.
    repeat (rewrite slice_join by lia). apply slice_whole. exact Hlen.
  - intros Hlen. split.
    + unfold bip38.at_.lot_token.prefix, bip38.at_.lot_token.salt,
        bip38.at_.lot_token.lot, bip38.at_.lot_token.sign,
        bip38.at_.lot_token.hash, bip38.at_.lot_token.checksum.
      repeat (rewrite slice_join by lia). apply slice_whole. exact Hlen.
    + unfold bip38.at_.token.prefix, bip38.at_.token.entropy,
        bip38.at_.token.sign, bip38.at_.token.hash,
        bip38.at_.token.checksum.
      repeat (rewrite slice_join by lia). apply slice_whole. exact Hlen.
Qed.

Lemma partitions_tile_the_arrays_witness :
  bip38.slice example_private_key bip38.at_.private_key.encrypted
  = repeat 7 32.
Proof.
  destruct (proj1 (partitions_tile_the_arrays example_private_key) eq_refl)
    as (_ & Hencrypted & _).
  rewrite Hencrypted. reflexivity.
Defined.

(** ** bip38: the flags of the two ways to make a key *)

(** X21. The flags that [encrypt] writes ([new_flags] of the
    compression) make [decrypt] take the key as not multiplied, without
    lot; the flags that [create_key_pair] writes ([new_flags] of the
    token) make [decrypt] take it as multiplied, with the lot flag set
    exactly when the token starts with the eight bytes of the lot
    prefix.  Both keep the compression flag. *)
Theorem new_flags_select_the_decryption (token : list Z) (compressed : bool)
    (key : list Z) :
  (bip38.slice key bip38.at_.private_key.flags = bip38.new_flags compressed ->
   bip38.decrypt_multiplied key = Some false
   /\ bip38.check_flag key bip38.at_.private_key.flags
        bip38.flag_byte.lot_sequence = Some false
   /\ bip38.check_flag key bip38.at_.private_key.flags
        bip38.flag_byte.ec_compressed = Some compressed)
  /\ (bip38.slice key bip38.at_.private_key.flags
      = bip38.new_flags_token token compressed ->
      bip38.decrypt_multiplied key = Some true
      /\ bip38.check_flag key bip38.at_.private_key.flags
           bip38.flag_byte.lot_sequence
         = Some (bool_decide (take 8 token = bip38.prefix.lot_token))
      /\ bip38.check_flag key bip38.at_.private_key.flags
           bip38.flag_byte.ec_compressed = Some compressed).
Proof.
  assert (Hbyte : forall f,
            bip38.slice key bip38.at_.private_key.flags = [f] ->
            key !! 2%nat = Some f).
  { unfold bip38.slice. cbn [bip38.start bip38.end_ bip38.at_.private_key.flags].
    intros f Hf.
    destruct key as [|k0 [|k1 [|k2 key]]]; try discriminate Hf.
    cbn in Hf. inversion Hf. reflexivity. }
  split; intros Hflags; apply Hbyte in Hflags.
  - destruct (proj1 (flag_byte_bits_read false compressed false key) Hflags)
      as (Hlot & Hcompressed & Hmultiplied).
    auto.
  - destruct (proj1 (flag_byte_bits_read true compressed _ key) Hflags)
      as (Hlot & Hcompressed & Hmultiplied).
    split; [exact Hmultiplied|]. split; [|exact Hcompressed].
    rewrite Hlot. f_equal. unfold bip38.slice.
    cbn [bip38.start bip38.end_ bip38.at_.token.prefix].
    rewrite Nat.sub_0_r, drop_0. cbn [length bip38.prefix.lot_token].
    rewrite take_take. reflexivity.
Qed.

Lemma new_flags_select_the_decryption_witness :
  bip38.decrypt_multiplied example_private_key = Some false.
Proof.
  apply (proj1 (new_flags_select_the_decryption [] true example_private_key)).
  reflexivity.
Defined.
